(** * go-gin-api: the logger factory and the shutdown hook

    A shallow embedding of [pkg/logger] (functional options, the zap core
    assembled by [NewJSONLogger], [WrapMeta]) and of [pkg/shutdown]
    ([NewHook], [WithSignals], [Close]), followed by the properties of
    the natural-language specification that concern them. *)

From Stdlib Require Import ZArith Lia.
From stdpp Require Import gmap strings list fin_maps.

Local Open Scope string_scope.
Local Open Scope Z_scope.
Local Open Scope list_scope.

(** Go's [error] interface: [None] is the nil error, [Some msg] an error
    whose [Error()] text is [msg]. *)
Abbreviation error := (option string).

(** A Go call either returns or panics. *)
Inductive result (A : Type) : Type :=
| Ok (a : A)
| Panic (e : string).
Arguments Ok {A} a.
Arguments Panic {A} e.

(** ** Package logger *)
Module logger.

(** [zapcore.Level] is an [int8]; the named levels are zap's constants. *)
Abbreviation Level := Z (only parsing).
Definition DebugLevel : Level := -1.
Definition InfoLevel : Level := 0.
Definition WarnLevel : Level := 1.
Definition ErrorLevel : Level := 2.
Definition DPanicLevel : Level := 3.
Definition PanicLevel : Level := 4.
Definition FatalLevel : Level := 5.

(** [time.RFC3339] of Go's standard library. *)
Definition time_RFC3339 : string := "2006-01-02T15:04:05Z07:00".

Definition DefaultLevel : Level := InfoLevel.
Definition DefaultTimeLayout : string := time_RFC3339.

(** [lumberjack.Logger], the rotating writer: only the exported fields
    that [WithFileRotationP] fills in. *)
Record lumberjack_Logger : Type := {
  Filename : string;
  MaxSize : Z;
  MaxBackups : Z;
  MaxAge : Z;
  LocalTime : bool;
  Compress : bool
}.

(** The [io.Writer] values the package handles. *)
Inductive Writer : Type :=
| os_Stdout
| os_Stderr
| os_File (name : string)
| Lumberjack (l : lumberjack_Logger)
| Lock (w : Writer).

(** The private [option] struct. [fields] is a Go map, [file] is nil
    until a file option runs. *)
Record option_ : Type := {
  level : Level;
  fields : gmap string string;
  file : option Writer;
  timeLayout : string;
  disableConsole : bool
}.

(** [type Option] is a function on a pointer to the option struct: the
    closure mutates the struct it is given; here it returns the updated
    struct. *)
Abbreviation Option := (option_ -> option_) (only parsing).

Definition set_level (l : Level) (opt : option_) : option_ :=
  {| level := l; fields := fields opt; file := file opt;
     timeLayout := timeLayout opt; disableConsole := disableConsole opt |}.

Definition set_field (key value : string) (opt : option_) : option_ :=
  {| level := level opt; fields := <[key := value]> (fields opt);
     file := file opt; timeLayout := timeLayout opt;
     disableConsole := disableConsole opt |}.

Definition set_file (w : Writer) (opt : option_) : option_ :=
  {| level := level opt; fields := fields opt; file := Some w;
     timeLayout := timeLayout opt; disableConsole := disableConsole opt |}.

Definition set_timeLayout (t : string) (opt : option_) : option_ :=
  {| level := level opt; fields := fields opt; file := file opt;
     timeLayout := t; disableConsole := disableConsole opt |}.

Definition set_disableConsole (b : bool) (opt : option_) : option_ :=
  {| level := level opt; fields := fields opt; file := file opt;
     timeLayout := timeLayout opt; disableConsole := b |}.

Definition WithDebugLevel : Option := fun opt => set_level DebugLevel opt.
Definition WithInfoLevel : Option := fun opt => set_level InfoLevel opt.
Definition WithWarnLevel : Option := fun opt => set_level WarnLevel opt.
Definition WithErrorLevel : Option := fun opt => set_level ErrorLevel opt.

Definition WithField (key value : string) : Option :=
  fun opt => set_field key value opt.

Definition WithTimeLayout (t : string) : Option :=
  fun opt => set_timeLayout t opt.

Definition WithDisableConsole : Option :=
  fun opt => set_disableConsole true opt.

(** The operating-system calls of the two file options. What they answer
    is the environment's business: [os_MkdirAll dir] and [os_OpenFile
    file] give the error the call returns ([None] when it succeeds), and
    [filepath_Dir] is the standard library's function. *)
Record OS : Type := {
  filepath_Dir : string -> string;
  os_MkdirAll : string -> error;
  os_OpenFile : string -> error
}.

(** [WithFileP]: the directory is created and the file opened while the
    option is being built; either failure panics. *)
Definition WithFileP (sys : OS) (file : string) : result Option :=
  let dir := filepath_Dir sys file in
  match os_MkdirAll sys dir with
  | Some err => Panic err
  | None =>
      match os_OpenFile sys file with
      | Some err => Panic err
      | None => Ok (fun opt => set_file (Lock (os_File file)) opt)
      end
  end.

(** [WithFileRotationP]: only the directory is created here; the
    lumberjack writer is filled in with fixed rotation settings. *)
Definition WithFileRotationP (sys : OS) (file : string) : result Option :=
  let dir := filepath_Dir sys file in
  match os_MkdirAll sys dir with
  | Some err => Panic err
  | None =>
      Ok (fun opt =>
            set_file (Lumberjack {| Filename := file;
                                    MaxSize := 128;
                                    MaxBackups := 300;
                                    MaxAge := 30;
                                    LocalTime := true;
                                    Compress := true |}) opt)
  end.

(** *** The zap core *)

(** [zapcore.EncoderConfig] as [NewJSONLogger] fills it in; [EncodeTime]
    formats with the layout the closure captured. *)
Record EncoderConfig : Type := {
  TimeKey : string;
  LevelKey : string;
  NameKey : string;
  CallerKey : string;
  MessageKey : string;
  StacktraceKey : string;
  EncodeTime_layout : string
}.

Inductive Encoder : Type :=
| NewJSONEncoder (cfg : EncoderConfig).

(** Modelled from the spec: the priority router of zapcore (section 4.3),
    a tee of (encoder, sink, threshold-predicate) triples. [NopCore] is
    the tee of nothing. *)
Inductive Core : Type :=
| NopCore
| ioCore (enc : Encoder) (out : Writer) (enab : Level -> bool)
| multiCore (cores : list Core).

Definition NewCore (enc : Encoder) (ws : Writer) (enab : Level -> bool) : Core :=
  ioCore enc ws enab.

(** [zapcore.NewTee]: no core gives the no-op core, one core is returned
    as it is. *)
Definition NewTee (cores : list Core) : Core :=
  match cores with
  | [] => NopCore
  | [c] => c
  | _ => multiCore cores
  end.

(** [zapcore.NewMultiWriteSyncer] of a single writer is that writer;
    [zapcore.AddSync] only adds a no-op [Sync] where it is missing. *)
Definition NewMultiWriteSyncer1 (ws : Writer) : Writer := ws.
Definition AddSync (w : Writer) : Writer := w.

(** The (sink, threshold-predicate) pairs a core is made of, in the order
    the tee holds them. *)
Fixpoint leaves (c : Core) : list (Writer * (Level -> bool)) :=
  match c with
  | NopCore => []
  | ioCore _ out enab => [(out, enab)]
  | multiCore cores => flat_map leaves cores
  end.

(** Modelled from the spec: a core is enabled at a level when one of its
    leaves accepts it. *)
Definition Enabled (c : Core) (lvl : Level) : bool :=
  existsb (fun l => snd l lvl) (leaves c).

(** Modelled from the spec: "a record is delivered to every tee leaf
    whose predicate accepts its severity". The result lists the sinks of
    the accepting leaves, one entry per delivery. *)
Definition Check (c : Core) (lvl : Level) : list Writer :=
  map fst (List.filter (fun l => snd l lvl) (leaves c)).

(** The encoders of the leaves, for reading the time layout back. *)
Fixpoint encoders (c : Core) : list Encoder :=
  match c with
  | NopCore => []
  | ioCore enc _ _ => [enc]
  | multiCore cores => flat_map encoders cores
  end.

(** Go's empty interface, for the values a [Meta] carries, and
    [zap.Field] in the shapes this package builds. *)
Inductive any : Type :=
| VNil
| VBool (b : bool)
| VInt (n : Z)
| VString (s : string).

Inductive Field : Type :=
| StringField (key value : string)
| ErrorField (key : string) (err : string)
| NamespaceField (key : string)
| AnyField (key : string) (value : any).

(** [*zap.Logger]: the core, the two options [NewJSONLogger] passes to
    [zap.New], and the fields added by [zap.Fields]. *)
Record zap_Logger : Type := {
  core : Core;
  addCaller : bool;
  errorOutput : Writer;
  context : list Field
}.

Definition zap_New (c : Core) (caller : bool) (errOut : Writer) : zap_Logger :=
  {| core := c; addCaller := caller; errorOutput := errOut; context := [] |}.

Definition WithOptions_Fields (lg : zap_Logger) (fs : list Field) : zap_Logger :=
  {| core := core lg; addCaller := addCaller lg;
     errorOutput := errorOutput lg; context := context lg ++ fs |}.

(** Modelled from the spec: emission. The logger drops the record early
    when it is below DPanic and no leaf is enabled, and otherwise hands
    it to the router. *)
Definition delivered (lg : zap_Logger) (lvl : Level) : list Writer :=
  if (lvl <? DPanicLevel) && negb (Enabled (core lg) lvl) then []
  else Check (core lg) lvl.

(** The option struct [NewJSONLogger] starts from. *)
Definition init_option : option_ :=
  {| level := DefaultLevel; fields := ∅; file := None;
     timeLayout := ""; disableConsole := false |}.

(** [for _, f := range opts { f(opt) }] *)
Definition apply_options (opts : list Option) : option_ :=
  fold_left (fun opt f => f opt) opts init_option.

(** The three level enablers [NewJSONLogger] builds; each is a closure
    over the option struct and reads its [level]. [lowPriority] is for
    stdout, [highPriority] for stderr, [filePriority] is the enabler of
    the file core. *)
Definition lowPriority (opt : option_) : Level -> bool :=
  fun lvl => (lvl >=? level opt) && (lvl <? ErrorLevel).

Definition highPriority (opt : option_) : Level -> bool :=
  fun lvl => (lvl >=? level opt) && (lvl >=? ErrorLevel).

Definition filePriority (opt : option_) : Level -> bool :=
  fun lvl => lvl >=? level opt.

(** The layout [EncodeTime] formats with: the default one unless the
    option struct holds a non-empty layout. *)
Definition effective_timeLayout (opt : option_) : string :=
  let timeLayout' := DefaultTimeLayout in
  if negb (String.eqb (timeLayout opt) "") then timeLayout opt
  else timeLayout'.

Definition EncodeTime_of (enc : Encoder) : string :=
  match enc with
  | NewJSONEncoder cfg => EncodeTime_layout cfg
  end.

(** [NewJSONLogger]. The last loop ranges over the Go map, whose order
    is not fixed; [map_to_list] stands for whichever order it takes. *)
Definition NewJSONLogger (opts : list Option) : zap_Logger * error :=
  let opt := apply_options opts in
  let timeLayout := effective_timeLayout opt in
  let encoderConfig :=
    {| TimeKey := "time"; LevelKey := "level"; NameKey := "logger";
       CallerKey := "caller"; MessageKey := "msg";
       StacktraceKey := "stacktrace"; EncodeTime_layout := timeLayout |} in
  let jsonEncoder := NewJSONEncoder encoderConfig in
  let stdout := Lock os_Stdout in
  let stderr := Lock os_Stderr in
  let core := NewTee [] in
  let core :=
    if negb (disableConsole opt)
    then NewTee [ NewCore jsonEncoder (NewMultiWriteSyncer1 stdout) (lowPriority opt);
                  NewCore jsonEncoder (NewMultiWriteSyncer1 stderr) (highPriority opt) ]
    else core in
  let core :=
    match file opt with
    | Some w => NewTee [ core; NewCore jsonEncoder (AddSync w) (filePriority opt) ]
    | None => core
    end in
  let logger := zap_New core true stderr in
  let logger :=
    fold_left (fun lg kv => WithOptions_Fields lg [StringField (fst kv) (snd kv)])
              (map_to_list (fields opt)) logger in
  (logger, None).

(** *** Meta *)

Record meta : Type := { key : string; value : any }.

(** The [Meta] interface is sealed by its unexported method; its values
    are the pointers [NewMeta] returns. *)
Abbreviation Meta := meta (only parsing).

Definition Key (m : Meta) : string := key m.
Definition Value (m : Meta) : any := value m.

Definition NewMeta (key : string) (value : any) : Meta :=
  {| key := key; value := value |}.

(** [zap.Error] of a non-nil error, [zap.Namespace] and [zap.Any]. *)
Definition zap_Error (err : string) : Field := ErrorField "error" err.
Definition zap_Namespace (key : string) : Field := NamespaceField key.
Definition zap_Any (key : string) (value : any) : Field := AnyField key value.

(** [WrapMeta]. The slice is made with length 0 (its capacity does not
    show in the result) and grows by [append]. *)
Definition WrapMeta (err : error) (metas : list Meta) : list Field :=
  let fields : list Field := [] in
  let fields :=
    match err with
    | Some e => fields ++ [zap_Error e]
    | None => fields
    end in
  let fields := fields ++ [zap_Namespace "meta"] in
  fold_left (fun fields meta => fields ++ [zap_Any (Key meta) (Value meta)])
            metas fields.

(** *** Calling the factory *)

(** The option expressions a caller writes as arguments of
    [NewJSONLogger], one per exported constructor. *)
Inductive OptionExpr : Type :=
| EWithDebugLevel
| EWithInfoLevel
| EWithWarnLevel
| EWithErrorLevel
| EWithField (key value : string)
| EWithFileP (file : string)
| EWithFileRotationP (file : string)
| EWithTimeLayout (timeLayout : string)
| EWithDisableConsole.

Definition eval_option (sys : OS) (e : OptionExpr) : result Option :=
  match e with
  | EWithDebugLevel => Ok WithDebugLevel
  | EWithInfoLevel => Ok WithInfoLevel
  | EWithWarnLevel => Ok WithWarnLevel
  | EWithErrorLevel => Ok WithErrorLevel
  | EWithField k v => Ok (WithField k v)
  | EWithFileP f => WithFileP sys f
  | EWithFileRotationP f => WithFileRotationP sys f
  | EWithTimeLayout t => Ok (WithTimeLayout t)
  | EWithDisableConsole => Ok WithDisableConsole
  end.

(** Go evaluates the arguments of a call from left to right, before the
    call; the first panic ends the evaluation. *)
Fixpoint eval_args (sys : OS) (es : list OptionExpr) : result (list Option) :=
  match es with
  | [] => Ok []
  | e :: es' =>
      match eval_option sys e with
      | Panic p => Panic p
      | Ok f =>
          match eval_args sys es' with
          | Panic p => Panic p
          | Ok fs => Ok (f :: fs)
          end
      end
  end.

(** The call [logger.NewJSONLogger(e1, ..., en)], as [main] writes it. *)
Definition call_NewJSONLogger (sys : OS) (es : list OptionExpr)
  : result (zap_Logger * error) :=
  match eval_args sys es with
  | Panic p => Panic p
  | Ok opts => Ok (NewJSONLogger opts)
  end.

(** *** What the specification says of option order

    "Later options override earlier ones for singular fields and
    accumulate for plural fields; last writer wins on key collision":
    each of these reads the option list alone. *)
Definition level_set_by (e : OptionExpr) : option Level :=
  match e with
  | EWithDebugLevel => Some DebugLevel
  | EWithInfoLevel => Some InfoLevel
  | EWithWarnLevel => Some WarnLevel
  | EWithErrorLevel => Some ErrorLevel
  | _ => None
  end.

Definition timeLayout_set_by (e : OptionExpr) : option string :=
  match e with
  | EWithTimeLayout t => Some t
  | _ => None
  end.

Definition field_set_by (k : string) (e : OptionExpr) : option string :=
  match e with
  | EWithField k' v => if decide (k' = k) then Some v else None
  | _ => None
  end.

Definition is_file_option (e : OptionExpr) : bool :=
  match e with
  | EWithFileP _ | EWithFileRotationP _ => true
  | _ => false
  end.

Definition is_disableConsole (e : OptionExpr) : bool :=
  match e with
  | EWithDisableConsole => true
  | _ => false
  end.

(** The rotation settings of a writer, for the writers that rotate:
    size cap in MB, backup count, age in days, compression. *)
Definition rotation_policy (w : Writer) : option (Z * Z * Z * bool) :=
  match w with
  | Lumberjack l => Some (MaxSize l, MaxBackups l, MaxAge l, Compress l)
  | _ => None
  end.

(** An environment in which every directory can be made and no file can
    be opened, and one in which nothing fails. *)
Definition sys_no_open : OS :=
  {| filepath_Dir := fun _ => "/var/log";
     os_MkdirAll := fun _ => None;
     os_OpenFile := fun _ => Some "open: permission denied" |}.

Definition sys_fine : OS :=
  {| filepath_Dir := fun _ => "/var/log";
     os_MkdirAll := fun _ => None;
     os_OpenFile := fun _ => None |}.

Definition sys_no_mkdir : OS :=
  {| filepath_Dir := fun _ => "/var/log";
     os_MkdirAll := fun _ => Some "mkdir: read-only file system";
     os_OpenFile := fun _ => None |}.

(** The last option of the list that sets the thing, if there is one. *)
Definition last_wins {A : Type} (sets : OptionExpr -> option A)
    (es : list OptionExpr) : option A :=
  last (omap sets es).

(** The writer a file option installs: the locked file for [WithFileP],
    the rotating writer for [WithFileRotationP]. *)
Definition file_set_by (e : OptionExpr) : option Writer :=
  match e with
  | EWithFileP f => Some (Lock (os_File f))
  | EWithFileRotationP f =>
      Some (Lumberjack {| Filename := f; MaxSize := 128; MaxBackups := 300;
                          MaxAge := 30; LocalTime := true; Compress := true |})
  | _ => None
  end.

(** Whether two options write the same part of the option struct: the
    level, the time layout, the file, the console flag, or the same key
    of the field map. *)
Definition same_target (e1 e2 : OptionExpr) : bool :=
  match e1, e2 with
  | (EWithDebugLevel | EWithInfoLevel | EWithWarnLevel | EWithErrorLevel),
    (EWithDebugLevel | EWithInfoLevel | EWithWarnLevel | EWithErrorLevel) => true
  | EWithField k1 _, EWithField k2 _ => bool_decide (k1 = k2)
  | (EWithFileP _ | EWithFileRotationP _),
    (EWithFileP _ | EWithFileRotationP _) => true
  | EWithTimeLayout _, EWithTimeLayout _ => true
  | EWithDisableConsole, EWithDisableConsole => true
  | _, _ => false
  end.

(** The key of a field, and whether it opens a namespace. *)
Definition field_key (f : Field) : string :=
  match f with
  | StringField k _ => k
  | ErrorField k _ => k
  | NamespaceField k => k
  | AnyField k _ => k
  end.

Definition is_namespace (f : Field) : bool :=
  match f with
  | NamespaceField _ => true
  | _ => false
  end.

End logger.

(** ** Package shutdown *)
Module shutdown.

(** [syscall.Signal] is an [int]; the two default signals. *)
Abbreviation Signal := Z (only parsing).
Definition SIGINT : Signal := 2.
Definition SIGTERM : Signal := 15.

(** A signal the default hook does not register (window size change). *)
Definition SIGWINCH : Signal := 28.

(** The hook owns one channel, made with capacity 1. [ctx] is what the
    channel holds; [notified] is the part of the runtime's signal table
    that belongs to this channel, the signals [signal.Notify] registered
    for it. Hooks do not share channels, so each has its own state. *)
Record hook : Type := {
  ctx : list Signal;
  notified : gset Z
}.

Definition ctx_cap : nat := 1.

(** [signal.Notify(h.ctx, s)] *)
Definition signal_Notify (h : hook) (s : Signal) : hook :=
  {| ctx := ctx h; notified := notified h ∪ {[ s ]} |}.

(** [signal.Stop(h.ctx)]: the channel gets no further signal. *)
Definition signal_Stop (h : hook) : hook :=
  {| ctx := ctx h; notified := ∅ |}.

Definition WithSignals (h : hook) (signals : list Signal) : hook :=
  fold_left signal_Notify signals h.

Definition NewHook : hook :=
  let hook := {| ctx := []; notified := ∅ |} in
  WithSignals hook [SIGINT; SIGTERM].

(** The runtime on the arrival of signal [s]: a send that does not block
    on the channel registered for it, so the signal is lost when the
    channel is full. A signal that is not registered for the channel
    does not touch the hook, whatever else the process does with it. *)
Definition deliver (s : Signal) (h : hook) : hook :=
  if decide (s ∈ notified h) then
    if (length (ctx h) <? ctx_cap)%nat
    then {| ctx := ctx h ++ [s]; notified := notified h |}
    else h
  else h.

(** The receive [<-h.ctx] of the [select]: it takes what the channel
    holds, and otherwise waits while the signals of [arrivals] come in
    one by one. [None]: still waiting when they are used up. *)
Fixpoint receive (arrivals : list Signal) (h : hook)
  : option (Signal * list Signal * hook) :=
  match ctx h with
  | s :: pending =>
      Some (s, arrivals, {| ctx := pending; notified := notified h |})
  | [] =>
      match arrivals with
      | [] => None
      | a :: arrivals' => receive arrivals' (deliver a h)
      end
  end.

Section Close.

(** What the callbacks act on: the rest of the program's state. *)
Context {World : Type}.

(** A callback [func()] returns or panics. *)
Inductive outcome : Type :=
| Returns (w : World)
| Panics (w : World) (e : string).

Definition Func : Type := World -> outcome.

(** What [Close] does, in the order it does it. *)
Inductive Event : Type :=
| EvReceive (s : Signal)
| EvStop
| EvCall (f : Func).

(** [for _, f := range funcs { f() }]: each call is made by the loop
    itself (there is no [go] statement), the next one after it has
    returned; a panic is not recovered, it leaves the loop and [Close]. *)
Fixpoint run_funcs (funcs : list Func) (w : World) (tr : list Event)
  : outcome * list Event :=
  match funcs with
  | [] => (Returns w, tr)
  | f :: funcs' =>
      match f w with
      | Returns w' => run_funcs funcs' w' (tr ++ [EvCall f])
      | Panics w' e => (Panics w' e, tr ++ [EvCall f])
      end
  end.

Inductive close_result : Type :=
| Blocked
| Closed (o : outcome) (h : hook) (tr : list Event) (unseen : list Signal).

Definition Close (arrivals : list Signal) (h : hook) (funcs : list Func)
    (w : World) : close_result :=
  match receive arrivals h with
  | None => Blocked
  | Some (s, unseen, h) =>
      let tr := [EvReceive s] in
      let h := signal_Stop h in
      let tr := tr ++ [EvStop] in
      let (o, tr) := run_funcs funcs w tr in
      Closed o h tr unseen
  end.

(** The events of a run and the callbacks it invoked. *)
Definition trace (r : close_result) : list Event :=
  match r with
  | Blocked => []
  | Closed _ _ tr _ => tr
  end.

Definition calls (tr : list Event) : list Func :=
  omap (fun ev => match ev with EvCall f => Some f | _ => None end) tr.

Definition invoked (r : close_result) : list Func := calls (trace r).

(** How many callbacks are invoked from [w]: all of them, or those up to
    the first that panics, that one included. *)
Fixpoint invocations (funcs : list Func) (w : World) : nat :=
  match funcs with
  | [] => 0
  | f :: funcs' =>
      match f w with
      | Returns w' => S (invocations funcs' w')
      | Panics _ _ => 1
      end
  end.

(** The state after callbacks that all return. *)
Fixpoint after (funcs : list Func) (w : World) : World :=
  match funcs with
  | [] => w
  | f :: funcs' =>
      match f w with
      | Returns w' => after funcs' w'
      | Panics w' _ => w'
      end
  end.

Definition returns (f : Func) : Prop := forall w, exists w', f w = Returns w'.

End Close.

Arguments outcome : clear implicits.
Arguments Func : clear implicits.
Arguments Event : clear implicits.
Arguments close_result : clear implicits.

(** Three callbacks on a log of what has run: two that record their name
    and return, one that panics. *)
Definition cb_stop_server : Func (list string) :=
  fun w => Returns (w ++ ["http server"]).

Definition cb_close_db : Func (list string) :=
  fun w => Returns (w ++ ["db"]).

Definition cb_panics : Func (list string) :=
  fun w => Panics w "close of closed channel".

(** Signals that arrive while nobody receives from the channel. *)
Definition arrive (arrivals : list Signal) (h : hook) : hook :=
  fold_left (fun h a => deliver a h) arrivals h.

Section CloseResults.
Context {World : Type}.

Definition outcome_of (r : close_result World) : option (outcome World) :=
  match r with
  | Blocked => None
  | Closed o _ _ _ => Some o
  end.

Definition hook_of (r : close_result World) : option hook :=
  match r with
  | Blocked => None
  | Closed _ h _ _ => Some h
  end.

(** The program state an outcome carries. *)
Definition World_of (o : outcome World) : World :=
  match o with
  | Returns w => w
  | Panics w _ => w
  end.

End CloseResults.

End shutdown.

(** ** Package main: the two loggers *)
Module main.
Import logger.

(** What [main] reads from the packages [configs], [timeutil] and [env],
    none of which is part of the sources at hand. *)
Record Settings : Type := {
  ProjectName : string;
  ProjectAccessLogFile : string;
  ProjectCronLogFile : string;
  CSTLayout : string;
  env_Active_Value : string
}.

(** [fmt.Sprintf("%s[%s]", configs.ProjectName, env.Active().Value())] *)
Definition domain (cf : Settings) : string :=
  String.append (ProjectName cf)
    (String.append "[" (String.append (env_Active_Value cf) "]")).

(** The arguments of both calls of [NewJSONLogger], up to the file. *)
Definition logger_args (cf : Settings) (file : string) : list OptionExpr :=
  [ EWithDisableConsole;
    EWithField "domain" (domain cf);
    EWithTimeLayout (CSTLayout cf);
    EWithFileP file ].

(** The first statements of [main]: the access logger, then the cron
    logger, each followed by [if err != nil { panic(err) }]. *)
Definition loggers (sys : OS) (cf : Settings) : result (zap_Logger * zap_Logger) :=
  match call_NewJSONLogger sys (logger_args cf (ProjectAccessLogFile cf)) with
  | Panic p => Panic p
  | Ok (accessLogger, Some err) => Panic err
  | Ok (accessLogger, None) =>
      match call_NewJSONLogger sys (logger_args cf (ProjectCronLogFile cf)) with
      | Panic p => Panic p
      | Ok (cronLogger, Some err) => Panic err
      | Ok (cronLogger, None) => Ok (accessLogger, cronLogger)
      end
  end.

(** Settings to run [loggers] on. *)
Definition settings_fat : Settings :=
  {| ProjectName := "go-gin-api";
     ProjectAccessLogFile := "./logs/go-gin-api-access.log";
     ProjectCronLogFile := "./logs/go-gin-api-cron.log";
     CSTLayout := "2006-01-02 15:04:05";
     env_Active_Value := "fat" |}.

End main.

(** * Properties *)

(** ** The router that [NewJSONLogger] assembles *)
Section Routing.
Import logger.

Lemma with_fields_core (kvs : list (string * string)) (lg : zap_Logger) :
  core (fold_left (fun lg kv => WithOptions_Fields lg [StringField (fst kv) (snd kv)])
                  kvs lg) = core lg.
Proof.
  revert lg. induction kvs as [|kv kvs IH]; intros lg; simpl; [done|].
  by rewrite IH.
Qed.

(** The leaves of the logger's core: the two console leaves unless the
    console is disabled, then the file leaf when a file was given. *)
Lemma NewJSONLogger_leaves (opts : list Option) :
  let opt := apply_options opts in
  leaves (core (fst (NewJSONLogger opts))) =
    (if disableConsole opt then []
     else [(Lock os_Stdout, lowPriority opt); (Lock os_Stderr, highPriority opt)])
    ++ match file opt with
       | Some w => [(w, filePriority opt)]
       | None => []
       end.
Proof.
  unfold NewJSONLogger. cbn zeta. simpl fst. rewrite with_fields_core.
  destruct (disableConsole (apply_options opts)),
           (file (apply_options opts)); reflexivity.
Qed.

(** The early exit of the logger changes nothing: a record no leaf
    accepts is delivered nowhere by the router either. *)
Lemma delivered_Check (lg : zap_Logger) (lvl : Z) :
  delivered lg lvl = Check (core lg) lvl.
Proof.
  unfold delivered, Enabled, Check.
  destruct (lvl <? DPanicLevel); simpl; [|done].
  induction (leaves (core lg)) as [|l ls IH]; simpl; [done|].
  destruct (snd l lvl); simpl; [done|]. exact IH.
Qed.

Lemma lowPriority_band (opt : option_) (lvl : Z) :
  lowPriority opt lvl = bool_decide (level opt <= lvl < ErrorLevel).
Proof.
  unfold lowPriority. case_bool_decide as H.
  - apply andb_true_iff. split; [apply Z.geb_le | apply Z.ltb_lt]; lia.
  - apply not_true_is_false. rewrite andb_true_iff, Z.geb_le, Z.ltb_lt. lia.
Qed.

Lemma highPriority_band (opt : option_) (lvl : Z) :
  highPriority opt lvl = bool_decide (level opt <= lvl /\ ErrorLevel <= lvl).
Proof.
  unfold highPriority. case_bool_decide as H.
  - apply andb_true_iff. split; apply Z.geb_le; lia.
  - apply not_true_is_false. rewrite andb_true_iff, !Z.geb_le. lia.
Qed.

Lemma filePriority_band (opt : option_) (lvl : Z) :
  filePriority opt lvl = bool_decide (level opt <= lvl).
Proof.
  unfold filePriority. case_bool_decide as H.
  - apply Z.geb_le; lia.
  - apply not_true_is_false. rewrite Z.geb_le. lia.
Qed.

(** C1. With the console enabled and severity floor L = [level opt], a
    record of severity S goes to stdout iff L <= S < Error, to stderr
    iff L <= S and Error <= S, and to the file sink, when a file option
    was given, iff L <= S: the list of sinks the record is delivered to
    is exactly those three, each under its own condition. *)
Theorem C1_console_bands_and_open_file (opts : list Option) (S : Z) :
  let opt := apply_options opts in
  let L := level opt in
  disableConsole opt = false ->
  delivered (fst (NewJSONLogger opts)) S =
    (if bool_decide (L <= S < ErrorLevel) then [Lock os_Stdout] else [])
    ++ (if bool_decide (L <= S /\ ErrorLevel <= S) then [Lock os_Stderr] else [])
    ++ match file opt with
       | Some w => if bool_decide (L <= S) then [w] else []
       | None => []
       end.
Proof.
  intros opt L Hconsole.
  rewrite delivered_Check. unfold Check.
  rewrite NewJSONLogger_leaves. fold opt. rewrite Hconsole.
  cbn [app List.filter map fst snd].
  rewrite lowPriority_band, highPriority_band. fold L.
  destruct (bool_decide (L <= S < ErrorLevel)),
           (bool_decide (L <= S /\ ErrorLevel <= S));
    cbn [app List.filter map fst snd];
    (destruct (file opt) as [w|]; cbn [app List.filter map fst snd];
     [rewrite filePriority_band; fold L;
      destruct (bool_decide (L <= S)); reflexivity | reflexivity]).
Qed.

Lemma C1_console_bands_and_open_file_witness :
  delivered (fst (NewJSONLogger [WithWarnLevel; WithField "domain" "api"])) ErrorLevel
  = [Lock os_Stderr].
Proof.
  exact (C1_console_bands_and_open_file
           [WithWarnLevel; WithField "domain" "api"] ErrorLevel eq_refl).
Defined.

(** C4, as it is written, fails on the stdout sink. With no option the
    threshold is Info; Warn < Error, the Warn record reaches stdout, and
    the Error record, though at or above the threshold, does not. *)
Lemma C4_stdout_band_counterexample :
  let lg := fst (NewJSONLogger []) in
  level (apply_options []) = InfoLevel /\
  WarnLevel < ErrorLevel /\
  InfoLevel <= ErrorLevel /\
  delivered lg WarnLevel = [Lock os_Stdout] /\
  Lock os_Stdout ∉ delivered lg ErrorLevel.
Proof.
  cbv zeta. repeat split; try reflexivity; try (unfold InfoLevel, ErrorLevel; lia).
  assert (Hd : delivered (fst (NewJSONLogger [])) ErrorLevel = [Lock os_Stderr])
    by reflexivity.
  rewrite Hd. intros Hin. apply list_elem_of_singleton in Hin. discriminate Hin.
Qed.

(** C4, amended. The router holds the stdout and stderr leaves (unless
    the console is disabled) and the file leaf (when a file was given).
    With threshold T = [level opt]: the file leaf accepts S iff T <= S,
    the stderr leaf iff T <= S and Error <= S, the stdout leaf iff
    T <= S < Error; the file and stderr leaves are monotone in the
    severity. *)
Theorem C4_file_and_stderr_monotone (opts : list Option) :
  let opt := apply_options opts in
  let T := level opt in
  exists low high filep : Z -> bool,
    leaves (core (fst (NewJSONLogger opts))) =
      (if disableConsole opt then []
       else [(Lock os_Stdout, low); (Lock os_Stderr, high)])
      ++ match file opt with
         | Some w => [(w, filep)]
         | None => []
         end /\
    (forall S, filep S = true <-> T <= S) /\
    (forall S, high S = true <-> T <= S /\ ErrorLevel <= S) /\
    (forall S, low S = true <-> T <= S < ErrorLevel) /\
    (forall S1 S2, S1 < S2 -> filep S1 = true -> filep S2 = true) /\
    (forall S1 S2, S1 < S2 -> high S1 = true -> high S2 = true).
Proof.
  intros opt T.
  exists (lowPriority opt), (highPriority opt), (filePriority opt).
  split; [apply NewJSONLogger_leaves|].
  assert (Hf : forall S, filePriority opt S = true <-> T <= S).
  { intros S. rewrite filePriority_band. apply bool_decide_eq_true. }
  assert (Hh : forall S, highPriority opt S = true <-> T <= S /\ ErrorLevel <= S).
  { intros S. rewrite highPriority_band. apply bool_decide_eq_true. }
  assert (Hl : forall S, lowPriority opt S = true <-> T <= S < ErrorLevel).
  { intros S. rewrite lowPriority_band. apply bool_decide_eq_true. }
  split; [exact Hf|]. split; [exact Hh|]. split; [exact Hl|]. split.
  - intros S1 S2 Hlt H1. apply Hf. apply Hf in H1. lia.
  - intros S1 S2 Hlt H1. apply Hh. apply Hh in H1. lia.
Qed.

End Routing.

(** ** Options: order, defaults, failures *)
Section Options.
Import logger.

Variable sys : OS.

Lemma eval_args_cons_inv (e : OptionExpr) (es : list OptionExpr)
    (opts : list (option_ -> option_)) :
  eval_args sys (e :: es) = Ok opts ->
  exists f fs, eval_option sys e = Ok f /\ eval_args sys es = Ok fs /\ opts = f :: fs.
Proof.
  simpl. destruct (eval_option sys e) as [f|p]; [|discriminate].
  destruct (eval_args sys es) as [fs|p]; [|discriminate].
  intros [= <-]. by exists f, fs.
Qed.

Lemma WithFileP_inv (path : string) (f : option_ -> option_) :
  WithFileP sys path = Ok f -> f = fun opt => set_file (Lock (os_File path)) opt.
Proof.
  unfold WithFileP.
  destruct (os_MkdirAll sys _); [discriminate|].
  destruct (os_OpenFile sys _); [discriminate|]. by intros [= <-].
Qed.

Lemma WithFileRotationP_inv (path : string) (f : option_ -> option_) :
  WithFileRotationP sys path = Ok f ->
  f = fun opt =>
        set_file (Lumberjack {| Filename := path; MaxSize := 128;
                                MaxBackups := 300; MaxAge := 30;
                                LocalTime := true; Compress := true |}) opt.
Proof.
  unfold WithFileRotationP.
  destruct (os_MkdirAll sys _); [discriminate|]. by intros [= <-].
Qed.

(** Case analysis on an option expression that evaluated to [f]. *)
Ltac option_cases e H :=
  destruct e; simpl in H;
  try (apply WithFileP_inv in H);
  try (apply WithFileRotationP_inv in H);
  try (injection H as H);
  subst.

Lemma default_last_cons {A : Type} (g : OptionExpr -> option A) (d : A)
    (e : OptionExpr) (es : list OptionExpr) :
  default d (last_wins g (e :: es)) = default (default d (g e)) (last_wins g es).
Proof.
  unfold last_wins.
  change (omap g (e :: es))
    with (match g e with Some y => y :: omap g es | None => omap g es end).
  destruct (g e) as [a|]; [|done].
  rewrite last_cons. by destruct (last (omap g es)).
Qed.

(** A property of the option struct that each option either sets or
    leaves alone ends up as its last setter left it. *)
Lemma fold_last_wins {A : Type} (proj : option_ -> A)
    (sets : OptionExpr -> option A) :
  (forall e f o, eval_option sys e = Ok f -> proj (f o) = default (proj o) (sets e)) ->
  forall es opts o,
    eval_args sys es = Ok opts ->
    proj (fold_left (fun opt f => f opt) opts o) = default (proj o) (last_wins sets es).
Proof.
  intros Hstep es. induction es as [|e es IH]; intros opts o Hev.
  - simpl in Hev. injection Hev as <-. reflexivity.
  - apply eval_args_cons_inv in Hev as (f & fs & Hf & Hfs & ->).
    simpl fold_left. rewrite (IH fs (f o) Hfs), (Hstep e f o Hf).
    symmetry. apply default_last_cons.
Qed.

Lemma level_step (e : OptionExpr) (f : option_ -> option_) (o : option_) :
  eval_option sys e = Ok f -> level (f o) = default (level o) (level_set_by e).
Proof. intros H. option_cases e H; reflexivity. Qed.

Lemma timeLayout_step (e : OptionExpr) (f : option_ -> option_) (o : option_) :
  eval_option sys e = Ok f ->
  timeLayout (f o) = default (timeLayout o) (timeLayout_set_by e).
Proof. intros H. option_cases e H; reflexivity. Qed.

Lemma field_step (k : string) (e : OptionExpr) (f : option_ -> option_)
    (o : option_) :
  eval_option sys e = Ok f ->
  fields (f o) !! k = default (fields o !! k) (Some <$> field_set_by k e).
Proof.
  intros H. destruct e as [| | | |k' v|path|path|t|]; simpl in H;
    try (apply WithFileP_inv in H); try (apply WithFileRotationP_inv in H);
    try (injection H as H); subst; try reflexivity.
  simpl. destruct (decide (k' = k)) as [->|Hne]; simpl.
  - apply lookup_insert_eq.
  - by apply lookup_insert_ne.
Qed.

Lemma disableConsole_step (e : OptionExpr) (f : option_ -> option_)
    (o : option_) :
  eval_option sys e = Ok f ->
  disableConsole (f o) = disableConsole o || is_disableConsole e.
Proof.
  intros H. option_cases e H; simpl;
    rewrite ?orb_false_r, ?orb_true_r; reflexivity.
Qed.

Lemma last_wins_fmap_Some {A : Type} (g : OptionExpr -> option A)
    (es : list OptionExpr) :
  default None (last_wins (fun e => Some <$> g e) es) = last_wins g es.
Proof.
  assert (Hgen : forall d : option A,
             default d (last_wins (fun e => Some <$> g e) es)
             = match last_wins g es with Some v => Some v | None => d end).
  { induction es as [|e es IH]; intros d; [done|].
    rewrite default_last_cons, IH.
    unfold last_wins at 2.
    change (omap g (e :: es))
      with (match g e with Some y => y :: omap g es | None => omap g es end).
    unfold last_wins.
    destruct (g e) as [a|]; [|done].
    rewrite last_cons. by destruct (last (omap g es)). }
  rewrite Hgen. by destruct (last_wins g es).
Qed.

Lemma file_step (e : OptionExpr) (f : option_ -> option_) (o : option_) :
  eval_option sys e = Ok f -> is_file_option e = false -> file (f o) = file o.
Proof. intros H Hnf. option_cases e H; try discriminate Hnf; reflexivity. Qed.

Lemma disableConsole_fold (es : list OptionExpr)
    (opts : list (option_ -> option_)) (o : option_) :
  eval_args sys es = Ok opts ->
  disableConsole (fold_left (fun opt f => f opt) opts o)
  = disableConsole o || existsb is_disableConsole es.
Proof.
  revert opts o. induction es as [|e es IH]; intros opts o Hev.
  - simpl in Hev. injection Hev as <-. simpl. by rewrite orb_false_r.
  - apply eval_args_cons_inv in Hev as (f & fs & Hf & Hfs & ->).
    simpl. rewrite (IH fs (f o) Hfs), (disableConsole_step e f o Hf).
    by rewrite orb_assoc.
Qed.

Lemma file_fold (es : list OptionExpr) (opts : list (option_ -> option_))
    (o : option_) :
  eval_args sys es = Ok opts ->
  Forall (fun e => is_file_option e = false) es ->
  file (fold_left (fun opt f => f opt) opts o) = file o.
Proof.
  revert opts o. induction es as [|e es IH]; intros opts o Hev Hnf.
  - simpl in Hev. by injection Hev as <-.
  - apply eval_args_cons_inv in Hev as (f & fs & Hf & Hfs & ->).
    apply Forall_cons in Hnf as [He Hes].
    simpl. rewrite (IH fs (f o) Hfs Hes). by apply file_step with e.
Qed.

(** Only the two file options can panic. *)
Lemma eval_option_panic (e : OptionExpr) (p : string) :
  eval_option sys e = Panic p -> is_file_option e = true.
Proof. destruct e; simpl; try discriminate; reflexivity. Qed.

Lemma eval_args_total (es : list OptionExpr) :
  Forall (fun e => is_file_option e = false) es ->
  exists opts, eval_args sys es = Ok opts.
Proof.
  induction 1 as [|e es He Hes [fs IH]]; [by exists []|].
  simpl. destruct (eval_option sys e) as [f|p] eqn:Hf.
  - rewrite IH. by eexists.
  - apply eval_option_panic in Hf. congruence.
Qed.

Lemma eval_args_panic_inv (es : list OptionExpr) (p : string) :
  eval_args sys es = Panic p ->
  exists e, e ∈ es /\ eval_option sys e = Panic p.
Proof.
  induction es as [|e es IH]; simpl; [discriminate|].
  destruct (eval_option sys e) as [f|q] eqn:Hf.
  - destruct (eval_args sys es) as [fs|q]; [discriminate|].
    intros [= ->]. destruct (IH eq_refl) as (e' & Hin & He').
    exists e'. split; [by right | done].
  - intros [= ->]. exists e. split; [by left | done].
Qed.

Lemma eval_args_panics (es : list OptionExpr) (e : OptionExpr) (p : string) :
  e ∈ es -> eval_option sys e = Panic p -> exists q, eval_args sys es = Panic q.
Proof.
  intros Hin Hp. induction Hin as [e es|e e' es Hin IH]; simpl.
  - rewrite Hp. by eexists.
  - destruct (eval_option sys e') as [f|q]; [|by eexists].
    destruct (IH Hp) as [q ->]. by eexists.
Qed.

Lemma last_wins_none {A : Type} (g : OptionExpr -> option A)
    (es : list OptionExpr) :
  Forall (fun e => g e = None) es -> last_wins g es = None.
Proof.
  unfold last_wins. induction 1 as [|e es He Hes IH]; [done|].
  change (omap g (e :: es))
    with (match g e with Some y => y :: omap g es | None => omap g es end).
  by rewrite He.
Qed.

Lemma with_fields_context (kvs : list (string * string)) (lg : zap_Logger) :
  context (fold_left (fun lg kv => WithOptions_Fields lg [StringField (fst kv) (snd kv)])
                     kvs lg)
  = context lg ++ map (fun kv => StringField (fst kv) (snd kv)) kvs.
Proof.
  revert lg. induction kvs as [|kv kvs IH]; intros lg; simpl.
  - by rewrite app_nil_r.
  - rewrite IH. simpl. by rewrite <- app_assoc.
Qed.

(** The static fields of the logger are the entries of the option map. *)
Lemma NewJSONLogger_context (opts : list (option_ -> option_)) (k v : string) :
  StringField k v ∈ context (fst (NewJSONLogger opts))
  <-> fields (apply_options opts) !! k = Some v.
Proof.
  unfold NewJSONLogger. cbn zeta. simpl fst. rewrite with_fields_context.
  simpl. rewrite <- elem_of_map_to_list, list_elem_of_fmap. split.
  - intros ([k' v'] & [= -> ->] & Hin). exact Hin.
  - intros Hin. by exists (k, v).
Qed.

Lemma NewJSONLogger_encoders (opts : list (option_ -> option_)) :
  Forall (fun enc => EncodeTime_of enc = effective_timeLayout (apply_options opts))
         (encoders (core (fst (NewJSONLogger opts)))).
Proof.
  unfold NewJSONLogger. cbn zeta. simpl fst. rewrite with_fields_core.
  destruct (disableConsole (apply_options opts)),
           (file (apply_options opts)); simpl; repeat constructor.
Qed.

(** C7. The options are applied from left to right, each to the struct
    the ones before it left. The severity floor and the time layout are
    those of the last option that sets them (the defaults Info and the
    empty layout when none does), and the static field map holds, for
    each key, the value of the last [WithField] on that key; so do the
    static fields of the logger. *)
Theorem C7_options_in_order_last_wins (es : list OptionExpr)
    (opts : list (option_ -> option_)) :
  eval_args sys es = Ok opts ->
  let opt := apply_options opts in
  (forall pre f, apply_options (pre ++ [f]) = f (apply_options pre)) /\
  level opt = default InfoLevel (last_wins level_set_by es) /\
  timeLayout opt = default "" (last_wins timeLayout_set_by es) /\
  (forall k, fields opt !! k = last_wins (field_set_by k) es) /\
  (forall k v, StringField k v ∈ context (fst (NewJSONLogger opts))
               <-> last_wins (field_set_by k) es = Some v).
Proof.
  intros Hev opt.
  assert (Hfields : forall k, fields opt !! k = last_wins (field_set_by k) es).
  { intros k. unfold opt, apply_options.
    rewrite (fold_last_wins (fun o => fields o !! k)
               (fun e => Some <$> field_set_by k e) (field_step k) es opts _ Hev).
    simpl. rewrite lookup_empty. apply last_wins_fmap_Some. }
  split; [|split; [|split; [|split]]].
  - intros pre f. unfold apply_options. by rewrite fold_left_app.
  - exact (fold_last_wins level level_set_by level_step es opts init_option Hev).
  - exact (fold_last_wins timeLayout timeLayout_set_by timeLayout_step
             es opts init_option Hev).
  - exact Hfields.
  - intros k v. rewrite NewJSONLogger_context. fold opt. by rewrite Hfields.
Qed.

(** C8. Where no option sets the severity floor it is Info; where none
    sets the time layout the encoders format with RFC3339; where none
    disables the console, stdout and stderr are the first two sinks of
    the router. *)
Theorem C8_defaults (es : list OptionExpr) (opts : list (option_ -> option_)) :
  eval_args sys es = Ok opts ->
  let opt := apply_options opts in
  let lg := fst (NewJSONLogger opts) in
  (Forall (fun e => level_set_by e = None) es -> level opt = InfoLevel) /\
  (Forall (fun e => timeLayout_set_by e = None) es ->
     effective_timeLayout opt = time_RFC3339 /\
     Forall (fun enc => EncodeTime_of enc = time_RFC3339) (encoders (core lg))) /\
  (Forall (fun e => is_disableConsole e = false) es ->
     disableConsole opt = false /\
     take 2 (map fst (leaves (core lg))) = [Lock os_Stdout; Lock os_Stderr]).
Proof.
  intros Hev opt lg. split; [|split].
  - intros Hnone. unfold opt, apply_options.
    rewrite (fold_last_wins level level_set_by level_step es opts _ Hev).
    by rewrite (last_wins_none _ _ Hnone).
  - intros Hnone.
    assert (Ht : timeLayout opt = "").
    { unfold opt, apply_options.
      rewrite (fold_last_wins timeLayout timeLayout_set_by timeLayout_step
                 es opts _ Hev).
      by rewrite (last_wins_none _ _ Hnone). }
    assert (He : effective_timeLayout opt = time_RFC3339).
    { unfold effective_timeLayout. by rewrite Ht. }
    split; [exact He|]. rewrite <- He. apply NewJSONLogger_encoders.
  - intros Hnone.
    assert (Hd : disableConsole opt = false).
    { unfold opt, apply_options. rewrite (disableConsole_fold es opts _ Hev).
      simpl. apply not_true_is_false. intros Hex.
      apply existsb_exists in Hex as (e & Hin & He).
      rewrite Forall_forall in Hnone.
      apply list_elem_of_In in Hin. specialize (Hnone e Hin). congruence. }
    split; [exact Hd|]. unfold lg. rewrite NewJSONLogger_leaves. fold opt.
    rewrite Hd. reflexivity.
Qed.

(** C9. With the console disabled and no file option, the call returns a
    logger and a nil error; its core is the no-op core, it has no sink,
    and a record of any severity is delivered nowhere. *)
Theorem C9_no_sink_drops_everything (es : list OptionExpr) :
  EWithDisableConsole ∈ es ->
  Forall (fun e => is_file_option e = false) es ->
  exists lg,
    call_NewJSONLogger sys es = Ok (lg, None) /\
    core lg = NopCore /\
    leaves (core lg) = [] /\
    forall S, delivered lg S = [].
Proof.
  intros Hdis Hnf. destruct (eval_args_total es Hnf) as [opts Hev].
  exists (fst (NewJSONLogger opts)).
  assert (Hd : disableConsole (apply_options opts) = true).
  { unfold apply_options. rewrite (disableConsole_fold es opts _ Hev). simpl.
    apply existsb_exists. exists EWithDisableConsole.
    split; [by apply list_elem_of_In | done]. }
  assert (Hf : file (apply_options opts) = None).
  { unfold apply_options. by rewrite (file_fold es opts _ Hev Hnf). }
  assert (Hcore : core (fst (NewJSONLogger opts)) = NopCore).
  { unfold NewJSONLogger. cbn zeta. simpl fst. rewrite with_fields_core.
    by rewrite Hd, Hf. }
  split; [|split; [|split]].
  - unfold call_NewJSONLogger. rewrite Hev. reflexivity.
  - exact Hcore.
  - by rewrite Hcore.
  - intros S. rewrite delivered_Check. unfold Check. by rewrite Hcore.
Qed.

(** C10. The error [NewJSONLogger] returns is nil for every option list.
    A call of it either returns a logger with a nil error or never
    reaches the function, because one of its file options panicked
    while the arguments were evaluated. *)
Theorem C10_error_is_always_nil :
  (forall opts, snd (NewJSONLogger opts) = None) /\
  (forall es,
     match call_NewJSONLogger sys es with
     | Ok (lg, err) => err = None /\ exists opts, eval_args sys es = Ok opts
     | Panic p =>
         exists e, e ∈ es /\ is_file_option e = true /\ eval_option sys e = Panic p
     end).
Proof.
  split; [reflexivity|].
  intros es. unfold call_NewJSONLogger.
  destruct (eval_args sys es) as [opts|p] eqn:Hev.
  - simpl. split; [reflexivity | by exists opts].
  - destruct (eval_args_panic_inv es p Hev) as (e & Hin & He).
    exists e. split; [done|]. split; [by apply eval_option_panic with p | done].
Qed.

End Options.

Section OptionsAtWork.
Import logger.

Lemma C7_options_in_order_last_wins_witness :
  let opt := apply_options
               [WithField "domain" "a"; WithErrorLevel; WithTimeLayout "15:04";
                WithField "domain" "b"; WithWarnLevel] in
  level opt = WarnLevel /\
  timeLayout opt = "15:04" /\
  fields opt !! "domain" = Some "b".
Proof.
  cbv zeta.
  destruct (C7_options_in_order_last_wins sys_fine
              [EWithField "domain" "a"; EWithErrorLevel; EWithTimeLayout "15:04";
               EWithField "domain" "b"; EWithWarnLevel]
              _ eq_refl) as (_ & Hl & Ht & Hf & _).
  split; [exact Hl|]. split; [exact Ht|]. exact (Hf "domain").
Defined.

Lemma C8_defaults_witness :
  let opt := apply_options [WithField "domain" "a"] in
  let lg := fst (NewJSONLogger [WithField "domain" "a"]) in
  level opt = InfoLevel /\
  effective_timeLayout opt = "2006-01-02T15:04:05Z07:00" /\
  disableConsole opt = false /\
  map fst (leaves (core lg)) = [Lock os_Stdout; Lock os_Stderr].
Proof.
  cbv zeta.
  destruct (C8_defaults sys_fine [EWithField "domain" "a"] _ eq_refl)
    as (Hl & Ht & Hc).
  split; [apply Hl; repeat constructor|].
  split; [apply Ht; repeat constructor|].
  split; [apply Hc; repeat constructor|].
  apply (proj2 (Hc ltac:(repeat constructor))).
Defined.

Lemma C9_no_sink_drops_everything_witness :
  exists lg,
    call_NewJSONLogger sys_fine [EWithDisableConsole; EWithWarnLevel] = Ok (lg, None) /\
    core lg = NopCore /\
    leaves (core lg) = [] /\
    forall S, delivered lg S = [].
Proof.
  apply (C9_no_sink_drops_everything sys_fine [EWithDisableConsole; EWithWarnLevel]).
  - constructor.
  - repeat constructor.
Defined.

(** C5, as it is written, fails for the rotating option. The directory
    can be made and the file cannot be opened; the call returns a logger
    whose router writes to the rotating writer. *)
Lemma C5_rotation_does_not_open_counterexample :
  let path := "/var/log/app.log" in
  let es := [EWithDisableConsole; EWithFileRotationP path] in
  EWithFileRotationP path ∈ es /\
  os_OpenFile sys_no_open path = Some "open: permission denied" /\
  exists lg,
    call_NewJSONLogger sys_no_open es = Ok (lg, None) /\
    map fst (leaves (core lg)) =
      [Lumberjack {| Filename := path; MaxSize := 128; MaxBackups := 300;
                     MaxAge := 30; LocalTime := true; Compress := true |}].
Proof.
  cbv zeta. split; [right; left|]. split; [reflexivity|].
  eexists. split; reflexivity.
Qed.

(** C5, amended. A call with [WithFileP] panics, and returns no logger,
    when the directory of the file cannot be created or the file cannot
    be opened; a call with [WithFileRotationP] panics when the directory
    cannot be created. *)
Theorem C5_file_option_failure_aborts (sys : OS) (es : list OptionExpr)
    (path : string) :
  (EWithFileP path ∈ es /\
     (os_MkdirAll sys (filepath_Dir sys path) <> None \/
      os_OpenFile sys path <> None))
  \/ (EWithFileRotationP path ∈ es /\
        os_MkdirAll sys (filepath_Dir sys path) <> None) ->
  exists p, call_NewJSONLogger sys es = Panic p.
Proof.
  intros H.
  assert (Hp : exists e p, e ∈ es /\ eval_option sys e = Panic p).
  { destruct H as [[Hin Hfail]|[Hin Hfail]].
    - exists (EWithFileP path). simpl. unfold WithFileP.
      destruct (os_MkdirAll sys (filepath_Dir sys path)) as [err|];
        [by exists err|].
      destruct (os_OpenFile sys path) as [err|]; [by exists err|].
      destruct Hfail; congruence.
    - exists (EWithFileRotationP path). simpl. unfold WithFileRotationP.
      destruct (os_MkdirAll sys (filepath_Dir sys path)) as [err|];
        [by exists err | congruence]. }
  destruct Hp as (e & p & Hin & He).
  destruct (eval_args_panics sys es e p Hin He) as [q Hq].
  exists q. unfold call_NewJSONLogger. by rewrite Hq.
Qed.

Lemma C5_file_option_failure_aborts_witness :
  exists p,
    call_NewJSONLogger sys_no_open
      [EWithDisableConsole; EWithFileP "/var/log/app.log"] = Panic p.
Proof.
  apply (C5_file_option_failure_aborts sys_no_open
           [EWithDisableConsole; EWithFileP "/var/log/app.log"]
           "/var/log/app.log").
  left. split; [right; left | right; discriminate].
Defined.

(** C3, as it is written, fails: the rotating option takes the path and
    nothing else, so no two calls of it give different rotation
    settings, whatever the caller wants them to be. *)
Lemma C3_rotation_settings_not_caller_supplied_counterexample :
  (exists f1 f2,
     WithFileRotationP sys_fine "/var/log/a.log" = Ok f1 /\
     WithFileRotationP sys_fine "/var/log/b.log" = Ok f2 /\
     (file (f1 init_option) ≫= rotation_policy) = Some (128, 300, 30, true) /\
     (file (f2 init_option) ≫= rotation_policy) = Some (128, 300, 30, true)) /\
  ~ (exists sys1 path1 f1 o1 sys2 path2 f2 o2,
       WithFileRotationP sys1 path1 = Ok f1 /\
       WithFileRotationP sys2 path2 = Ok f2 /\
       (file (f1 o1) ≫= rotation_policy) <> (file (f2 o2) ≫= rotation_policy)).
Proof.
  split.
  - do 2 eexists. repeat split; reflexivity.
  - intros (sys1 & path1 & f1 & o1 & sys2 & path2 & f2 & o2 & H1 & H2 & Hne).
    apply WithFileRotationP_inv in H1, H2. subst. by apply Hne.
Qed.

(** C3, amended. The rotating option accepts the path only. The writer
    it installs rotates at 128 MB, keeps 300 backups for 30 days, names
    them in local time and compresses them, for every path. *)
Theorem C3_rotation_settings_fixed (sys : OS) (path : string)
    (f : option_ -> option_) (opt : option_) :
  WithFileRotationP sys path = Ok f ->
  file (f opt) =
    Some (Lumberjack {| Filename := path; MaxSize := 128; MaxBackups := 300;
                        MaxAge := 30; LocalTime := true; Compress := true |}) /\
  (file (f opt) ≫= rotation_policy) = Some (128, 300, 30, true).
Proof.
  intros H. apply WithFileRotationP_inv in H. subst. split; reflexivity.
Qed.

Lemma C3_rotation_settings_fixed_witness :
  exists f,
    WithFileRotationP sys_fine "/var/log/app.log" = Ok f /\
    (file (f init_option) ≫= rotation_policy) = Some (128, 300, 30, true).
Proof.
  eexists. split; [reflexivity|].
  apply (C3_rotation_settings_fixed sys_fine "/var/log/app.log" _ init_option).
  reflexivity.
Defined.

End OptionsAtWork.

(** ** Meta *)
Section WrapMeta.
Import logger.

Lemma append_metas (metas : list meta) (acc : list Field) :
  fold_left (fun fields meta => fields ++ [zap_Any (Key meta) (Value meta)])
            metas acc
  = acc ++ map (fun m => AnyField (Key m) (Value m)) metas.
Proof.
  revert acc. induction metas as [|m metas IH]; intros acc; simpl.
  - by rewrite app_nil_r.
  - rewrite IH. by rewrite <- app_assoc.
Qed.

(** C6. [WrapMeta err metas] is: the error field, when [err] is not nil;
    then one namespace field with key "meta"; then the fields
    (Key(m), Value(m)) of the metas in their order. Its length is n + 1
    for a nil error and n + 2 otherwise. *)
Theorem C6_WrapMeta_shape (err : error) (metas : list meta) :
  WrapMeta err metas =
    match err with
    | Some e => [ErrorField "error" e]
    | None => []
    end
    ++ NamespaceField "meta"
    :: map (fun m => AnyField (Key m) (Value m)) metas /\
  length (WrapMeta err metas) =
    match err with
    | Some _ => (length metas + 2)%nat
    | None => (length metas + 1)%nat
    end.
Proof.
  assert (Hshape : WrapMeta err metas =
    match err with Some e => [ErrorField "error" e] | None => [] end
    ++ NamespaceField "meta" :: map (fun m => AnyField (Key m) (Value m)) metas).
  { unfold WrapMeta. cbv zeta. rewrite append_metas.
    destruct err as [e|]; reflexivity. }
  split; [exact Hshape|].
  rewrite Hshape. destruct err as [e|]; simpl; rewrite length_map; lia.
Qed.

End WrapMeta.

(** ** The shutdown hook *)
Section Shutdown.
Import shutdown.
Context {World : Type}.

Lemma deliver_unregistered (a : Z) (h : hook) :
  a ∉ notified h -> deliver a h = h.
Proof. intros Hn. unfold deliver. by rewrite decide_False. Qed.

(** No signal that arrives after [signal.Stop] reaches the channel. *)
Lemma deliver_after_Stop (a : Z) (h : hook) :
  deliver a (signal_Stop h) = signal_Stop h.
Proof. apply deliver_unregistered. simpl. set_solver. Qed.

Lemma receive_blocked (pre : list Z) (h : hook) :
  ctx h = [] -> Forall (fun a => a ∉ notified h) pre -> receive pre h = None.
Proof.
  intros Hctx Hpre. induction Hpre as [|a pre Ha Hpre IH]; simpl.
  - by rewrite Hctx.
  - rewrite Hctx. by rewrite (deliver_unregistered a h Ha).
Qed.

Lemma receive_wakes (pre post : list Z) (s : Z) (h : hook) :
  ctx h = [] -> Forall (fun a => a ∉ notified h) pre -> s ∈ notified h ->
  receive (pre ++ s :: post) h = Some (s, post, h).
Proof.
  intros Hctx Hpre Hs. induction Hpre as [|a pre Ha Hpre IH]; simpl.
  - rewrite Hctx. unfold deliver. rewrite (decide_True _ _ Hs), Hctx. simpl.
    destruct h as [c n]. simpl in *. subst c. by destruct post.
  - rewrite Hctx. by rewrite (deliver_unregistered a h Ha).
Qed.

Lemma run_funcs_trace (funcs : list (Func World)) (w : World)
    (tr : list (Event World)) :
  snd (run_funcs funcs w tr)
  = tr ++ map EvCall (take (invocations funcs w) funcs).
Proof.
  revert w tr. induction funcs as [|f funcs IH]; intros w tr; simpl.
  - by rewrite app_nil_r.
  - destruct (f w) as [w'|w' e]; simpl.
    + rewrite IH. by rewrite <- app_assoc.
    + reflexivity.
Qed.

Lemma run_funcs_all_return (funcs : list (Func World)) (w : World)
    (tr : list (Event World)) :
  Forall returns funcs ->
  invocations funcs w = length funcs /\
  fst (run_funcs funcs w tr) = Returns (after funcs w).
Proof.
  intros Hret. revert w tr.
  induction Hret as [|f funcs Hf Hfs IH]; intros w tr; simpl; [done|].
  destruct (Hf w) as [w' ->]. destruct (IH w' (tr ++ [EvCall f])) as [-> ->].
  done.
Qed.

Lemma run_funcs_cut_short (funcs : list (Func World)) (w : World)
    (tr : list (Event World)) :
  (invocations funcs w < length funcs)%nat ->
  exists w' e, fst (run_funcs funcs w tr) = Panics w' e.
Proof.
  revert w tr. induction funcs as [|f funcs IH]; intros w tr; simpl; [lia|].
  destruct (f w) as [w'|w' e]; simpl.
  - intros Hlt. apply IH. lia.
  - intros _. by exists w', e.
Qed.

(** What [Close] does once its receive has succeeded. *)
Lemma Close_after_receive (arrivals unseen : list Z) (h h1 : hook) (s : Z)
    (funcs : list (Func World)) (w : World) :
  receive arrivals h = Some (s, unseen, h1) ->
  Close arrivals h funcs w =
    Closed (fst (run_funcs funcs w [EvReceive s; EvStop]))
           (signal_Stop h1)
           (EvReceive s :: EvStop
              :: map EvCall (take (invocations funcs w) funcs))
           unseen.
Proof.
  intros Hrecv. unfold Close. rewrite Hrecv. cbv zeta. simpl app.
  pose proof (run_funcs_trace funcs w [EvReceive s; EvStop]) as Htr.
  destruct (run_funcs funcs w [EvReceive s; EvStop]) as [o tr].
  simpl in Htr |- *. by rewrite Htr.
Qed.

(** A signal that is already in the channel is received at once. *)
Lemma Close_pending (arrivals pending : list Z) (h : hook) (s : Z)
    (funcs : list (Func World)) (w : World) :
  ctx h = s :: pending ->
  trace (Close arrivals h funcs w)
  = EvReceive s :: EvStop :: map EvCall (take (invocations funcs w) funcs).
Proof.
  intros Hctx.
  rewrite (Close_after_receive arrivals arrivals h
             {| ctx := pending; notified := notified h |} s); [done|].
  destruct arrivals; simpl; by rewrite Hctx.
Qed.

Lemma calls_of_trace (s : Z) (fs : list (Func World)) :
  calls (EvReceive s :: EvStop :: map EvCall fs) = fs.
Proof.
  unfold calls.
  change (omap ?g (EvReceive s :: EvStop :: ?l)) with (omap g l).
  induction fs as [|f fs IH]; [done|].
  change (f :: omap (fun ev : Event World =>
                       match ev with EvCall f0 => Some f0 | _ => None end)
                    (map EvCall fs) = f :: fs).
  by rewrite IH.
Qed.

(** C2, amended. On a hook with nothing pending, [Close] stays blocked
    while only signals that are not registered arrive. When a registered
    signal [s] arrives it receives [s], then stops the delivery of
    signals to the hook, and only then invokes the callbacks, one after
    the other in the order given, each from the state the one before
    left: all of them when they all return, and otherwise those up to the
    first that panics, whose panic leaves [Close] with the later
    callbacks not invoked. *)
Theorem C2_close_waits_stops_then_calls_in_order
    (h : hook) (funcs : list (Func World)) (w : World)
    (pre post : list Z) (s : Z) :
  ctx h = [] ->
  Forall (fun a => a ∉ notified h) pre ->
  s ∈ notified h ->
  Close pre h funcs w = Blocked /\
  exists o h',
    Close (pre ++ s :: post) h funcs w =
      Closed o h'
             (EvReceive s :: EvStop
                :: map EvCall (take (invocations funcs w) funcs))
             post /\
    invoked (Close (pre ++ s :: post) h funcs w)
      = take (invocations funcs w) funcs /\
    notified h' = ∅ /\
    (forall a, deliver a h' = h') /\
    (Forall returns funcs ->
       invoked (Close (pre ++ s :: post) h funcs w) = funcs /\
       o = Returns (after funcs w)) /\
    ((invocations funcs w < length funcs)%nat -> exists w' e, o = Panics w' e).
Proof.
  intros Hctx Hpre Hs. split.
  - unfold Close. by rewrite (receive_blocked pre h Hctx Hpre).
  - pose proof (Close_after_receive _ _ _ _ _ funcs w
                  (receive_wakes pre post s h Hctx Hpre Hs)) as HClose.
    eexists _, _. split; [exact HClose|].
    assert (Hinv : invoked (Close (pre ++ s :: post) h funcs w)
                   = take (invocations funcs w) funcs).
    { rewrite HClose. unfold invoked, trace. apply calls_of_trace. }
    split; [exact Hinv|]. split; [reflexivity|].
    split; [intros a; apply deliver_after_Stop|]. split.
    + intros Hret.
      destruct (run_funcs_all_return funcs w [EvReceive s; EvStop] Hret)
        as [Hn Ho].
      split; [|exact Ho]. rewrite Hinv, Hn. apply firstn_all.
    + apply run_funcs_cut_short.
Qed.

End Shutdown.

Section ShutdownAtWork.
Import shutdown.

Lemma NewHook_notified : notified NewHook = {[ SIGINT; SIGTERM ]}.
Proof. unfold NewHook. simpl. set_solver. Qed.

(** C2, as it is written, fails when a callback panics. The hook is the
    default one and SIGINT arrives; of the three callbacks the second
    panics: the first two are invoked and the third is not. *)
Lemma C2_panicking_callback_counterexample :
  let funcs := [cb_stop_server; cb_panics; cb_close_db] in
  let r := Close [SIGINT] NewHook funcs [] in
  SIGINT ∈ notified NewHook /\
  r = Closed (Panics ["http server"] "close of closed channel")
             (signal_Stop NewHook)
             [EvReceive SIGINT; EvStop; EvCall cb_stop_server; EvCall cb_panics]
             [] /\
  invoked r = [cb_stop_server; cb_panics] /\
  invoked r <> funcs.
Proof.
  cbv zeta.
  assert (Hin : SIGINT ∈ notified NewHook) by (rewrite NewHook_notified; set_solver).
  assert (Hr : Close [SIGINT] NewHook [cb_stop_server; cb_panics; cb_close_db] []
               = Closed (Panics ["http server"] "close of closed channel")
                        (signal_Stop NewHook)
                        [EvReceive SIGINT; EvStop; EvCall cb_stop_server;
                         EvCall cb_panics] []).
  { rewrite (Close_after_receive [SIGINT] [] NewHook NewHook SIGINT); [done|].
    exact (receive_wakes [] [] SIGINT NewHook eq_refl (Forall_nil_2 _) Hin). }
  split; [exact Hin|]. split; [exact Hr|].
  rewrite Hr. split; [reflexivity|]. simpl. intros Heq. discriminate Heq.
Qed.

Lemma C2_close_waits_stops_then_calls_in_order_witness :
  Close [SIGWINCH] NewHook [cb_stop_server; cb_close_db] [] = Blocked /\
  exists o h',
    Close [SIGWINCH; SIGTERM] NewHook [cb_stop_server; cb_close_db] [] =
      Closed o h'
             [EvReceive SIGTERM; EvStop; EvCall cb_stop_server; EvCall cb_close_db]
             [] /\
    invoked (Close [SIGWINCH; SIGTERM] NewHook [cb_stop_server; cb_close_db] [])
      = [cb_stop_server; cb_close_db] /\
    o = Returns ["http server"; "db"].
Proof.
  assert (H1 : SIGWINCH ∉ notified NewHook).
  { rewrite NewHook_notified, not_elem_of_union, !not_elem_of_singleton.
    unfold SIGWINCH, SIGINT, SIGTERM. lia. }
  assert (Hs : SIGTERM ∈ notified NewHook).
  { rewrite NewHook_notified. set_solver. }
  destruct (C2_close_waits_stops_then_calls_in_order
              NewHook [cb_stop_server; cb_close_db] [] [SIGWINCH] [] SIGTERM
              eq_refl ltac:(constructor; [exact H1 | constructor]) Hs)
    as (Hblocked & o & h' & HClose & Hinv & _ & _ & Hall & _).
  split; [exact Hblocked|].
  exists o, h'. split; [exact HClose|]. split; [exact Hinv|].
  apply Hall. repeat constructor; intros w; by eexists.
Defined.

End ShutdownAtWork.

(** * Further properties *)

(** ** Routing, for every option struct *)
Section RoutingAll.
Import logger.

(** Where a record goes, console enabled or not, file or not. *)
Lemma delivered_bands (opts : list Option) (S : Z) :
  let opt := apply_options opts in
  let L := level opt in
  delivered (fst (NewJSONLogger opts)) S =
    (if disableConsole opt then []
     else (if bool_decide (L <= S < ErrorLevel) then [Lock os_Stdout] else [])
          ++ (if bool_decide (L <= S /\ ErrorLevel <= S) then [Lock os_Stderr] else []))
    ++ match file opt with
       | Some w => if bool_decide (L <= S) then [w] else []
       | None => []
       end.
Proof.
  intros opt L.
  rewrite delivered_Check. unfold Check.
  rewrite NewJSONLogger_leaves. fold opt.
  destruct (disableConsole opt); cbn [app List.filter map fst snd].
  - destruct (file opt) as [w|]; cbn [app List.filter map fst snd]; [|done].
    rewrite filePriority_band. fold L. by destruct (bool_decide (L <= S)).
  - rewrite lowPriority_band, highPriority_band. fold L.
    destruct (bool_decide (L <= S < ErrorLevel)),
             (bool_decide (L <= S /\ ErrorLevel <= S));
      cbn [app List.filter map fst snd];
      (destruct (file opt) as [w|]; cbn [app List.filter map fst snd];
       [rewrite filePriority_band; fold L;
        destruct (bool_decide (L <= S)); reflexivity | reflexivity]).
Qed.

(** X1. With the console enabled, a record at or above the severity
    floor goes to exactly one console stream, stdout below Error and
    stderr from Error on, and then to the file when there is one; a
    record below the floor goes nowhere. *)
Theorem X1_one_console_stream_per_record (opts : list Option) (S : Z) :
  let opt := apply_options opts in
  disableConsole opt = false ->
  delivered (fst (NewJSONLogger opts)) S =
    if bool_decide (level opt <= S)
    then (if bool_decide (S < ErrorLevel) then Lock os_Stdout else Lock os_Stderr)
         :: match file opt with Some w => [w] | None => [] end
    else [].
Proof.
  intros opt Hc. rewrite delivered_bands. fold opt. rewrite Hc.
  repeat case_bool_decide; try lia; by destruct (file opt).
Qed.

Lemma X1_one_console_stream_per_record_witness :
  delivered (fst (NewJSONLogger [WithDebugLevel])) WarnLevel = [Lock os_Stdout].
Proof.
  exact (X1_one_console_stream_per_record [WithDebugLevel] WarnLevel eq_refl).
Defined.

(** X2. A record is delivered to no sink exactly when it is below the
    severity floor or the logger has no sink at all (console disabled
    and no file). *)
Theorem X2_dropped_iff_below_floor_or_no_sink (opts : list Option) (S : Z) :
  let opt := apply_options opts in
  delivered (fst (NewJSONLogger opts)) S = []
  <-> S < level opt \/ (disableConsole opt = true /\ file opt = None).
Proof.
  intros opt. rewrite delivered_bands. fold opt.
  destruct (disableConsole opt), (file opt) as [w|];
    repeat case_bool_decide; simpl; split; intros Hx;
      try discriminate Hx; try reflexivity;
      try (destruct Hx as [Hx|[Hx1 Hx2]]; [lia | discriminate]);
      first [left; lia | right; done].
Qed.

(** X3. The file sink misses nothing: whenever a record is delivered to
    any sink of a logger with a file writer, it is delivered to that
    writer as well. *)
Theorem X3_file_gets_whatever_console_gets (opts : list Option) (S : Z)
    (w x : Writer) :
  file (apply_options opts) = Some w ->
  x ∈ delivered (fst (NewJSONLogger opts)) S ->
  w ∈ delivered (fst (NewJSONLogger opts)) S.
Proof.
  intros Hf. rewrite delivered_bands. rewrite Hf.
  destruct (disableConsole (apply_options opts));
    repeat case_bool_decide; simpl; intros Hx; try lia; set_solver.
Qed.

Lemma X3_file_gets_whatever_console_gets_witness :
  Lock (os_File "/var/log/app.log")
  ∈ delivered (fst (NewJSONLogger
                      [fun opt => set_file (Lock (os_File "/var/log/app.log")) opt]))
              ErrorLevel.
Proof.
  apply (X3_file_gets_whatever_console_gets _ ErrorLevel _ (Lock os_Stderr)).
  - reflexivity.
  - vm_compute. left.
Defined.

End RoutingAll.

(** ** Options, for every call *)
Section OptionsAll.
Import logger.

Ltac option_inv e H :=
  destruct e; simpl in H;
  try (apply WithFileP_inv in H);
  try (apply WithFileRotationP_inv in H);
  try (injection H as H);
  subst.

Lemma file_step_last (sys : OS) (e : OptionExpr) (f : option_ -> option_)
    (o : option_) :
  eval_option sys e = Ok f ->
  file (f o) = default (file o) (Some <$> file_set_by e).
Proof. intros H. option_inv e H; reflexivity. Qed.

(** The file writer of the struct is that of the last file option. *)
Lemma file_last_wins (sys : OS) (es : list OptionExpr)
    (opts : list (option_ -> option_)) :
  eval_args sys es = Ok opts ->
  file (apply_options opts) = last_wins file_set_by es.
Proof.
  intros Hev. unfold apply_options.
  rewrite (fold_last_wins sys file (fun e => Some <$> file_set_by e)
             (file_step_last sys) es opts _ Hev).
  apply last_wins_fmap_Some.
Qed.

Lemma file_set_by_not_console (es : list OptionExpr) (w : Writer) :
  last_wins file_set_by es = Some w -> w <> Lock os_Stdout /\ w <> Lock os_Stderr.
Proof.
  intros Hl. apply last_Some_elem_of, list_elem_of_omap in Hl as (e & _ & He).
  destruct e; simpl in He; try discriminate; injection He as <-;
    split; discriminate.
Qed.

Lemma disableConsole_exists (sys : OS) (es : list OptionExpr)
    (opts : list (option_ -> option_)) :
  eval_args sys es = Ok opts ->
  disableConsole (apply_options opts) = existsb is_disableConsole es.
Proof.
  intros Hev. unfold apply_options.
  by rewrite (disableConsole_fold sys es opts _ Hev).
Qed.

(** X4. When the last level option of the call is [WithErrorLevel], no
    record of any severity is written to stdout. *)
Theorem X4_error_floor_silences_stdout (sys : OS) (es : list OptionExpr)
    (opts : list (option_ -> option_)) (S : Z) :
  eval_args sys es = Ok opts ->
  last_wins level_set_by es = Some ErrorLevel ->
  Lock os_Stdout ∉ delivered (fst (NewJSONLogger opts)) S.
Proof.
  intros Hev Hlast.
  assert (HL : level (apply_options opts) = ErrorLevel).
  { unfold apply_options.
    rewrite (fold_last_wins sys level level_set_by (level_step sys) es opts _ Hev).
    by rewrite Hlast. }
  rewrite delivered_bands, HL, (file_last_wins sys es opts Hev).
  destruct (last_wins file_set_by es) as [w|] eqn:Hw.
  - destruct (file_set_by_not_console es w Hw) as [Hw1 _].
    destruct (disableConsole (apply_options opts));
      repeat case_bool_decide; simpl; try lia; set_solver.
  - destruct (disableConsole (apply_options opts));
      repeat case_bool_decide; simpl; try lia; set_solver.
Qed.

Lemma X4_error_floor_silences_stdout_witness :
  Lock os_Stdout
  ∉ delivered (fst (NewJSONLogger [WithDebugLevel; WithErrorLevel])) WarnLevel.
Proof.
  exact (X4_error_floor_silences_stdout sys_fine
           [EWithDebugLevel; EWithErrorLevel] _ WarnLevel eq_refl eq_refl).
Defined.

(** X5. The sinks of the logger, read off the arguments of the call:
    stdout and stderr unless some argument, wherever it stands, is
    [WithDisableConsole]; then the writer of the last file option. A
    file option that is followed by another one has no sink, so there
    are never more than three sinks. *)
Theorem X5_sinks_of_a_call (sys : OS) (es : list OptionExpr)
    (opts : list (option_ -> option_)) :
  eval_args sys es = Ok opts ->
  let sinks := map fst (leaves (core (fst (NewJSONLogger opts)))) in
  sinks = (if existsb is_disableConsole es then []
           else [Lock os_Stdout; Lock os_Stderr])
          ++ option_list (last_wins file_set_by es) /\
  (length sinks <= 3)%nat.
Proof.
  intros Hev sinks.
  assert (Hs : sinks = (if existsb is_disableConsole es then []
                        else [Lock os_Stdout; Lock os_Stderr])
                       ++ option_list (last_wins file_set_by es)).
  { unfold sinks. rewrite NewJSONLogger_leaves.
    rewrite (disableConsole_exists sys es opts Hev),
            (file_last_wins sys es opts Hev).
    by destruct (existsb is_disableConsole es), (last_wins file_set_by es). }
  split; [exact Hs|]. rewrite Hs.
  destruct (existsb is_disableConsole es), (last_wins file_set_by es);
    simpl; lia.
Qed.

Lemma X5_sinks_of_a_call_witness :
  map fst (leaves (core (fst (NewJSONLogger
    [fun opt => set_file (Lock (os_File "/var/log/a.log")) opt;
     WithDisableConsole;
     fun opt => set_file (Lock (os_File "/var/log/b.log")) opt]))))
  = [Lock (os_File "/var/log/b.log")].
Proof.
  exact (proj1 (X5_sinks_of_a_call sys_fine
                  [EWithFileP "/var/log/a.log"; EWithDisableConsole;
                   EWithFileP "/var/log/b.log"] _ eq_refl)).
Defined.

(** X6. The time layout the encoders format with is never empty: an
    empty layout in the option struct, whether no option set one or
    [WithTimeLayout] was given the empty string, is replaced by RFC3339,
    and any other layout is used as it is. *)
Theorem X6_time_layout_never_empty (opts : list Option) :
  let opt := apply_options opts in
  effective_timeLayout opt <> "" /\
  (timeLayout opt = "" -> effective_timeLayout opt = time_RFC3339) /\
  (timeLayout opt <> "" -> effective_timeLayout opt = timeLayout opt) /\
  Forall (fun enc => EncodeTime_of enc <> "")
         (encoders (core (fst (NewJSONLogger opts)))).
Proof.
  intros opt.
  assert (Hne : effective_timeLayout opt <> "").
  { unfold effective_timeLayout.
    destruct (String.eqb (timeLayout opt) "") eqn:He; simpl.
    - discriminate.
    - by apply String.eqb_neq. }
  split; [exact Hne|]. split; [|split].
  - intros He. unfold effective_timeLayout. by rewrite He.
  - intros He. unfold effective_timeLayout.
    apply String.eqb_neq in He. by rewrite He.
  - eapply Forall_impl; [apply NewJSONLogger_encoders|].
    intros enc ->. exact Hne.
Qed.

(** X7. The static fields of the logger are string fields with pairwise
    different keys, one for each key of the option map, however often
    [WithField] was given a key. *)
Theorem X7_static_fields_have_distinct_keys (opts : list Option) :
  let lg := fst (NewJSONLogger opts) in
  NoDup (map field_key (context lg)) /\
  length (context lg) = size (fields (apply_options opts)) /\
  Forall (fun f => exists k v, f = StringField k v) (context lg).
Proof.
  intros lg.
  assert (Hctx : context lg
                 = map (fun kv => StringField (fst kv) (snd kv))
                       (map_to_list (fields (apply_options opts)))).
  { unfold lg, NewJSONLogger. cbn zeta. simpl fst.
    by rewrite with_fields_context. }
  rewrite Hctx. split; [|split].
  - rewrite map_map. simpl.
    apply (NoDup_fst_map_to_list (fields (apply_options opts))).
  - by rewrite length_map, length_map_to_list.
  - apply Forall_forall. intros f Hin.
    apply list_elem_of_fmap in Hin as ([k v] & -> & _).
    by exists k, v.
Qed.

(** X8. Two options that do not write the same part of the option
    struct can be given in either order. *)
Theorem X8_independent_options_commute (sys : OS) (e1 e2 : OptionExpr)
    (f1 f2 : option_ -> option_) (o : option_) :
  eval_option sys e1 = Ok f1 ->
  eval_option sys e2 = Ok f2 ->
  same_target e1 e2 = false ->
  f1 (f2 o) = f2 (f1 o).
Proof.
  intros H1 H2 Hind.
  destruct e1 as [| | | |k1 v1|p1|p1|t1|]; simpl in H1;
    try (apply WithFileP_inv in H1); try (apply WithFileRotationP_inv in H1);
    try (injection H1 as H1); subst f1;
    (destruct e2 as [| | | |k2 v2|p2|p2|t2|]; simpl in H2;
     try (apply WithFileP_inv in H2); try (apply WithFileRotationP_inv in H2);
     try (injection H2 as H2); subst f2);
    simpl in Hind; try discriminate Hind; try reflexivity.
  apply bool_decide_eq_false in Hind.
  unfold WithField, set_field. simpl. f_equal. by apply insert_insert_ne.
Qed.

Lemma X8_independent_options_commute_witness :
  WithField "domain" "api" (WithWarnLevel init_option)
  = WithWarnLevel (WithField "domain" "api" init_option).
Proof.
  exact (X8_independent_options_commute sys_fine
           (EWithField "domain" "api") EWithWarnLevel _ _ init_option
           eq_refl eq_refl eq_refl).
Defined.



End OptionsAll.

(** ** Fields of a log call *)
Section WrapMetaAll.
Import logger.

Lemma WrapMeta_unfold (err : error) (metas : list meta) :
  WrapMeta err metas =
    match err with Some e => [ErrorField "error" e] | None => [] end
    ++ NamespaceField "meta" :: map (fun m => AnyField (Key m) (Value m)) metas.
Proof.
  unfold WrapMeta. cbv zeta. rewrite append_metas. by destruct err.
Qed.




(** X11. Metas are appended in place: the fields of [ms1 ++ ms2] are
    those of [ms1] followed by the fields of [ms2], and a meta made by
    [NewMeta key value] contributes the field (key, value). Metas with
    the same key are all kept. *)
Theorem X11_WrapMeta_appends (err : error) (ms1 ms2 : list meta)
    (k : string) (v : any) :
  WrapMeta err (ms1 ++ ms2)
  = WrapMeta err ms1 ++ map (fun m => AnyField (Key m) (Value m)) ms2 /\
  WrapMeta err (ms1 ++ [NewMeta k v]) = WrapMeta err ms1 ++ [AnyField k v] /\
  WrapMeta err [NewMeta k v; NewMeta k v]
  = WrapMeta err [] ++ [AnyField k v; AnyField k v].
Proof.
  rewrite !WrapMeta_unfold, !map_app. simpl.
  destruct err; simpl; repeat split; by rewrite <- ?app_assoc.
Qed.

(** X12. The result holds exactly one namespace field, keyed "meta"; it
    stands at index 0 for a nil error and 1 otherwise, and the meta at
    index i stands right after it at distance i + 1, so no meta field is
    outside the namespace, whatever its key. *)
Theorem X12_one_namespace_before_all_metas (err : error) (metas : list meta) :
  let at_ns := match err with Some _ => 1%nat | None => 0%nat end in
  List.filter is_namespace (WrapMeta err metas) = [NamespaceField "meta"] /\
  WrapMeta err metas !! at_ns = Some (NamespaceField "meta") /\
  (forall i m, metas !! i = Some m ->
     WrapMeta err metas !! (at_ns + 1 + i)%nat
     = Some (AnyField (Key m) (Value m))) /\
  WrapMeta err metas !! (at_ns + 1 + length metas)%nat = None.
Proof.
  intros at_ns. rewrite !WrapMeta_unfold.
  assert (Hnone : forall ms : list meta,
             List.filter is_namespace
               (map (fun m => AnyField (Key m) (Value m)) ms) = []).
  { induction ms as [|m ms IH]; [done | exact IH]. }
  split; [|split; [|split]].
  - destruct err; simpl; by rewrite Hnone.
  - unfold at_ns. by destruct err.
  - intros i m Hm. unfold at_ns.
    destruct err; simpl; rewrite list_lookup_fmap, Hm; reflexivity.
  - unfold at_ns. destruct err; simpl;
      apply lookup_ge_None; rewrite length_map; lia.
Qed.

End WrapMetaAll.

(** ** The hook and its signals *)
Section HookAll.
Import shutdown.
Context {World : Type}.

Lemma hook_eq (h1 h2 : hook) :
  ctx h1 = ctx h2 -> notified h1 = notified h2 -> h1 = h2.
Proof. destruct h1, h2. simpl. by intros -> ->. Qed.

Lemma WithSignals_fields (h : hook) (signals : list Z) :
  ctx (WithSignals h signals) = ctx h /\
  notified (WithSignals h signals) = notified h ∪ list_to_set signals.
Proof.
  unfold WithSignals. revert h.
  induction signals as [|s signals IH]; intros h; simpl.
  - split; [done | by rewrite (right_id_L ∅ (∪))].
  - destruct (IH (signal_Notify h s)) as [-> ->]. simpl.
    split; [done | by rewrite (assoc_L (∪))].
Qed.

(** X13. [WithSignals] only adds: the hook it returns is registered for
    the signals it had and for each one given, and its channel is
    untouched. On the default hook SIGINT and SIGTERM stay registered
    whatever is added, and adding nothing changes nothing. *)
Theorem X13_WithSignals_adds_to_the_set (h : hook) (signals : list Z) :
  notified (WithSignals h signals) = notified h ∪ list_to_set signals /\
  ctx (WithSignals h signals) = ctx h /\
  notified (WithSignals NewHook signals)
  = {[ SIGINT; SIGTERM ]} ∪ list_to_set signals /\
  WithSignals h [] = h.
Proof.
  destruct (WithSignals_fields h signals) as [Hc Hn].
  split; [exact Hn|]. split; [exact Hc|]. split; [|done].
  destruct (WithSignals_fields NewHook signals) as [_ ->].
  f_equal; unfold NewHook; simpl; set_solver.
Qed.

(** X14. What [WithSignals] registers depends on which signals it is
    given, not on their order or on repetitions. *)
Theorem X14_WithSignals_ignores_order_and_repeats (h : hook)
    (signals1 signals2 : list Z) :
  (forall s, s ∈ signals1 <-> s ∈ signals2) ->
  WithSignals h signals1 = WithSignals h signals2.
Proof.
  intros Hsame.
  destruct (WithSignals_fields h signals1) as [Hc1 Hn1].
  destruct (WithSignals_fields h signals2) as [Hc2 Hn2].
  apply hook_eq; [congruence|]. rewrite Hn1, Hn2. f_equal.
  apply set_eq. intros s. rewrite !elem_of_list_to_set. apply Hsame.
Qed.

Lemma X14_WithSignals_ignores_order_and_repeats_witness :
  WithSignals NewHook [1; 3; 1] = WithSignals NewHook [3; 1].
Proof.
  apply (X14_WithSignals_ignores_order_and_repeats NewHook [1; 3; 1] [3; 1]).
  intros s. rewrite !elem_of_cons, !elem_of_nil. tauto.
Defined.

Lemma receive_None_iff (arrivals : list Z) (h : hook) :
  receive arrivals h = None
  <-> ctx h = [] /\ Forall (fun a => a ∉ notified h) arrivals.
Proof.
  split.
  - revert h. induction arrivals as [|a arrivals IH]; intros h; simpl.
    + destruct (ctx h); [done | discriminate].
    + destruct (ctx h) as [|s pending] eqn:Hctx; [|discriminate].
      intros Hrecv. apply IH in Hrecv as [Hc Hall].
      unfold deliver in Hc, Hall.
      destruct (decide (a ∈ notified h)) as [Hin|Hnin].
      * rewrite Hctx in Hc. simpl in Hc. discriminate Hc.
      * split; [done|]. by constructor.
  - intros [Hc Hall]. by apply receive_blocked.
Qed.

Lemma Close_Blocked_iff (arrivals : list Z) (h : hook)
    (funcs : list (Func World)) (w : World) :
  Close arrivals h funcs w = Blocked <-> receive arrivals h = None.
Proof.
  unfold Close.
  destruct (receive arrivals h) as [[[s unseen] h1]|]; [|done].
  destruct (run_funcs funcs w ([EvReceive s] ++ [EvStop])).
  split; discriminate.
Qed.

(** X15. [Close] stays blocked exactly when the channel is empty and
    none of the arriving signals is registered for the hook; its
    callbacks play no part in that. *)
Theorem X15_Close_blocked_iff_no_registered_signal (arrivals : list Z)
    (h : hook) (funcs : list (Func World)) (w : World) :
  Close arrivals h funcs w = Blocked
  <-> ctx h = [] /\ Forall (fun a => a ∉ notified h) arrivals.
Proof. rewrite Close_Blocked_iff. apply receive_None_iff. Qed.

Lemma arrive_full (arrivals : list Z) (h : hook) :
  length (ctx h) = 1%nat -> arrive arrivals h = h.
Proof.
  intros Hfull. unfold arrive.
  induction arrivals as [|a arrivals IH]; simpl; [done|].
  assert (Hd : deliver a h = h).
  { unfold deliver. rewrite Hfull. simpl. by destruct (decide (a ∈ notified h)). }
  by rewrite Hd.
Qed.

Lemma arrive_first_registered (arrivals : list Z) (h : hook) :
  ctx h = [] ->
  ctx (arrive arrivals h) = take 1 (filter (fun a => a ∈ notified h) arrivals) /\
  notified (arrive arrivals h) = notified h.
Proof.
  intros Hctx. induction arrivals as [|a arrivals IH];
    [split; [exact Hctx | reflexivity]|].
  change (arrive (a :: arrivals) h) with (arrive arrivals (deliver a h)).
  destruct (decide (a ∈ notified h)) as [Hin|Hnin].
  - rewrite filter_cons_True by exact Hin. simpl.
    assert (Hd : deliver a h = {| ctx := [a]; notified := notified h |}).
    { unfold deliver. rewrite (decide_True _ _ Hin), Hctx. reflexivity. }
    rewrite Hd, arrive_full; [|done]. simpl. by rewrite take_0.
  - rewrite filter_cons_False by exact Hnin.
    by rewrite (deliver_unregistered a h Hnin).
Qed.

(** X16. Of the signals that arrive before anyone receives, the channel
    keeps the first registered one and loses the others; a [Close]
    called afterwards receives that one without waiting. *)
Theorem X16_first_registered_signal_is_kept (arrivals later : list Z)
    (h : hook) (funcs : list (Func World)) (w : World) (s : Z) (rest : list Z) :
  ctx h = [] ->
  filter (fun a => a ∈ notified h) arrivals = s :: rest ->
  ctx (arrive arrivals h) = [s] /\
  notified (arrive arrivals h) = notified h /\
  trace (Close later (arrive arrivals h) funcs w)
  = EvReceive s :: EvStop :: map EvCall (take (invocations funcs w) funcs).
Proof.
  intros Hctx Hfilter.
  destruct (arrive_first_registered arrivals h Hctx) as [Hc Hn].
  rewrite Hfilter in Hc. simpl in Hc. rewrite take_0 in Hc.
  split; [exact Hc|]. split; [exact Hn|].
  by apply Close_pending with [].
Qed.

Lemma deliver_cap (a : Z) (h : hook) :
  (length (ctx h) <= 1)%nat -> (length (ctx (deliver a h)) <= 1)%nat.
Proof.
  intros Hcap. unfold deliver.
  destruct (decide (a ∈ notified h)); [|done].
  destruct (length (ctx h) <? ctx_cap)%nat eqn:Hlt; [|done].
  apply Nat.ltb_lt in Hlt. unfold ctx_cap in Hlt. simpl.
  rewrite length_app. simpl. lia.
Qed.

Lemma receive_empties (arrivals unseen : list Z) (h h1 : hook) (s : Z) :
  (length (ctx h) <= 1)%nat ->
  receive arrivals h = Some (s, unseen, h1) ->
  ctx h1 = [] /\ notified h1 = notified h.
Proof.
  revert h. induction arrivals as [|a arrivals IH]; intros h Hcap; simpl.
  - destruct (ctx h) as [|s0 [|]] eqn:Hctx; simpl in Hcap; try lia;
      [discriminate|]. by intros [= <- <- <-].
  - destruct (ctx h) as [|s0 [|]] eqn:Hctx; simpl in Hcap; try lia.
    + intros Hrecv. destruct (IH (deliver a h)) as [Hc Hn]; [|exact Hrecv|].
      * apply deliver_cap. rewrite Hctx. simpl. lia.
      * split; [exact Hc|]. rewrite Hn. unfold deliver.
        destruct (decide (a ∈ notified h)); [|done].
        by destruct (length (ctx h) <? ctx_cap)%nat.
    + by intros [= <- <- <-].
Qed.

(** X17. A hook serves one [Close]. Once [Close] has received its
    signal, whether its callbacks returned or one panicked, the hook is
    registered for nothing and its channel is empty, and every later
    [Close] on it stays blocked whatever signals arrive. *)
Theorem X17_hook_is_one_shot (arrivals unseen later : list Z) (h h' : hook)
    (funcs funcs' : list (Func World)) (w w' : World)
    (o : outcome World) (tr : list (Event World)) :
  (length (ctx h) <= 1)%nat ->
  Close arrivals h funcs w = Closed o h' tr unseen ->
  ctx h' = [] /\ notified h' = ∅ /\
  Close later h' funcs' w' = Blocked.
Proof.
  intros Hcap HClose.
  destruct (receive arrivals h) as [[[s un] h1]|] eqn:Hrecv.
  - rewrite (Close_after_receive arrivals un h h1 s funcs w Hrecv) in HClose.
    injection HClose as _ <- _ _.
    destruct (receive_empties arrivals un h h1 s Hcap Hrecv) as [Hc _].
    split; [exact Hc|]. split; [reflexivity|].
    apply Close_Blocked_iff, receive_blocked; [exact Hc|].
    apply Forall_forall. intros a _. simpl. set_solver.
  - unfold Close in HClose. rewrite Hrecv in HClose. discriminate HClose.
Qed.

Lemma invocations_pos (f : Func World) (funcs : list (Func World)) (w : World) :
  (1 <= invocations (f :: funcs) w)%nat.
Proof. simpl. destruct (f w); lia. Qed.

(** X18. [Close] never invokes a callback out of turn: the callbacks it
    has invoked are always an initial part of the list it was given,
    none before the signal, and the first one for sure once the signal
    is received. No callback is skipped or invoked twice. *)
Theorem X18_invoked_is_a_prefix (arrivals : list Z) (h : hook)
    (funcs : list (Func World)) (w : World) :
  let r := Close arrivals h funcs w in
  invoked r `prefix_of` funcs /\
  (r = Blocked -> invoked r = []) /\
  (r <> Blocked -> head (invoked r) = head funcs).
Proof.
  intros r. unfold r.
  destruct (receive arrivals h) as [[[s un] h1]|] eqn:Hrecv.
  - rewrite (Close_after_receive arrivals un h h1 s funcs w Hrecv).
    unfold invoked, trace. rewrite calls_of_trace.
    split; [apply prefix_take|]. split; [discriminate|]. intros _.
    destruct funcs as [|f funcs]; [done|].
    pose proof (invocations_pos f funcs w) as Hpos.
    destruct (invocations (f :: funcs) w); [lia | reflexivity].
  - rewrite (proj2 (Close_Blocked_iff arrivals h funcs w) Hrecv).
    split; [apply prefix_nil|]. split; [done|]. by intros [].
Qed.

Lemma run_funcs_outcome_any_trace (funcs : list (Func World)) (w : World)
    (tr1 tr2 : list (Event World)) :
  fst (run_funcs funcs w tr1) = fst (run_funcs funcs w tr2).
Proof.
  revert w tr1 tr2. induction funcs as [|f funcs IH]; intros w tr1 tr2; simpl;
    [done|].
  destruct (f w); [apply IH | done].
Qed.

Lemma run_funcs_app (funcs1 funcs2 : list (Func World)) (w : World)
    (tr : list (Event World)) :
  Forall returns funcs1 ->
  fst (run_funcs (funcs1 ++ funcs2) w tr)
  = fst (run_funcs funcs2 (after funcs1 w) tr) /\
  invocations (funcs1 ++ funcs2) w
  = (length funcs1 + invocations funcs2 (after funcs1 w))%nat.
Proof.
  intros Hret. revert w tr.
  induction Hret as [|f funcs1 Hf Hfs IH]; intros w tr; simpl; [done|].
  destruct (Hf w) as [w1 ->].
  destruct (IH w1 (tr ++ [EvCall f])) as [-> ->]. split; [|done].
  apply run_funcs_outcome_any_trace.
Qed.

(** X19. A panic is exact. If the callbacks before [g] all return and
    [g] panics from the state they leave, a [Close] that has received
    its signal ends in that very panic, having invoked the callbacks up
    to [g] and none after it; the state is the one the earlier
    callbacks and [g] left. *)
Theorem X19_panic_stops_at_the_panicking_callback
    (arrivals : list Z) (h : hook) (before later : list (Func World))
    (g : Func World) (w w' : World) (e : string) :
  Forall returns before ->
  g (after before w) = Panics w' e ->
  let r := Close arrivals h (before ++ g :: later) w in
  r <> Blocked ->
  outcome_of r = Some (Panics w' e) /\ invoked r = before ++ [g].
Proof.
  intros Hret Hg r Hnb. unfold r in *.
  destruct (receive arrivals h) as [[[s un] h1]|] eqn:Hrecv.
  - rewrite (Close_after_receive arrivals un h h1 s _ w Hrecv).
    unfold invoked, trace, outcome_of. rewrite calls_of_trace.
    destruct (run_funcs_app before (g :: later) w [EvReceive s; EvStop] Hret)
      as [-> ->].
    rewrite take_app_add. simpl. rewrite Hg. split; reflexivity.
  - exfalso. apply Hnb. by apply Close_Blocked_iff.
Qed.

(** X20. Cleanup can be split at will: when the callbacks of the first
    part all return, [Close] on the whole list ends as [Close] on the
    second part does from the state the first part leaves, and has
    invoked the first part in front of what that one invokes. *)
Theorem X20_callbacks_compose (arrivals : list Z) (h : hook)
    (funcs1 funcs2 : list (Func World)) (w : World) :
  Forall returns funcs1 ->
  let whole := Close arrivals h (funcs1 ++ funcs2) w in
  let rest := Close arrivals h funcs2 (after funcs1 w) in
  outcome_of whole = outcome_of rest /\
  hook_of whole = hook_of rest /\
  (whole <> Blocked -> invoked whole = funcs1 ++ invoked rest).
Proof.
  intros Hret whole rest. unfold whole, rest.
  destruct (receive arrivals h) as [[[s un] h1]|] eqn:Hrecv.
  - rewrite !(Close_after_receive arrivals un h h1 s _ _ Hrecv).
    unfold invoked, trace, outcome_of, hook_of. rewrite !calls_of_trace.
    destruct (run_funcs_app funcs1 funcs2 w [EvReceive s; EvStop] Hret)
      as [-> ->].
    split; [done|]. split; [done|]. intros _.
    by rewrite take_app_add.
  - rewrite (proj2 (Close_Blocked_iff arrivals h (funcs1 ++ funcs2) w) Hrecv),
            (proj2 (Close_Blocked_iff arrivals h funcs2 (after funcs1 w)) Hrecv).
    split; [done|]. split; [done|]. by intros [].
Qed.


End HookAll.

Section HookAtWork.
Import shutdown.

Lemma X16_first_registered_signal_is_kept_witness :
  ctx (arrive [SIGWINCH; SIGTERM; SIGINT] NewHook) = [SIGTERM] /\
  notified (arrive [SIGWINCH; SIGTERM; SIGINT] NewHook) = notified NewHook /\
  trace (Close [] (arrive [SIGWINCH; SIGTERM; SIGINT] NewHook)
               [cb_stop_server; cb_close_db] [])
  = [EvReceive SIGTERM; EvStop; EvCall cb_stop_server; EvCall cb_close_db].
Proof.
  apply (X16_first_registered_signal_is_kept [SIGWINCH; SIGTERM; SIGINT] []
           NewHook [cb_stop_server; cb_close_db] [] SIGTERM [SIGINT]).
  - reflexivity.
  - vm_compute. reflexivity.
Defined.

Lemma X17_hook_is_one_shot_witness :
  exists h',
    ctx h' = [] /\ notified h' = ∅ /\
    Close [SIGINT; SIGTERM] h' [cb_close_db] ([] : list string) = Blocked.
Proof.
  exists (signal_Stop NewHook).
  apply (X17_hook_is_one_shot [SIGINT] [] [SIGINT; SIGTERM] NewHook
           (signal_Stop NewHook) [cb_stop_server] [cb_close_db] [] []
           (Returns ["http server"])
           [EvReceive SIGINT; EvStop; EvCall cb_stop_server]).
  - simpl. lia.
  - vm_compute. reflexivity.
Defined.

Lemma X19_panic_stops_at_the_panicking_callback_witness :
  outcome_of (Close [SIGINT] NewHook
                ([cb_stop_server] ++ cb_panics :: [cb_close_db]) [])
  = Some (Panics ["http server"] "close of closed channel") /\
  invoked (Close [SIGINT] NewHook
             ([cb_stop_server] ++ cb_panics :: [cb_close_db]) [])
  = [cb_stop_server] ++ [cb_panics].
Proof.
  apply (X19_panic_stops_at_the_panicking_callback [SIGINT] NewHook
           [cb_stop_server] [cb_close_db] cb_panics [] ["http server"]
           "close of closed channel").
  - repeat constructor. intros w. by eexists.
  - reflexivity.
  - vm_compute. discriminate.
Defined.

Lemma X20_callbacks_compose_witness :
  outcome_of (Close [SIGTERM] NewHook ([cb_stop_server] ++ [cb_close_db]) [])
  = outcome_of (Close [SIGTERM] NewHook [cb_close_db] ["http server"]).
Proof.
  apply (X20_callbacks_compose [SIGTERM] NewHook [cb_stop_server] [cb_close_db] []).
  repeat constructor. intros w. by eexists.
Defined.

End HookAtWork.

(** ** The loggers of main *)
Section MainAll.
Import logger main.

Lemma call_logger_args (sys : OS) (cf : Settings) (path : string) :
  call_NewJSONLogger sys (logger_args cf path) =
    match os_MkdirAll sys (filepath_Dir sys path) with
    | Some err => Panic err
    | None =>
        match os_OpenFile sys path with
        | Some err => Panic err
        | None =>
            Ok (fst (NewJSONLogger
                       [ WithDisableConsole; WithField "domain" (domain cf);
                         WithTimeLayout (CSTLayout cf);
                         fun opt => set_file (Lock (os_File path)) opt ]),
                None)
        end
    end.
Proof.
  unfold call_NewJSONLogger, logger_args. simpl. unfold WithFileP.
  destruct (os_MkdirAll sys (filepath_Dir sys path)); [done|].
  by destruct (os_OpenFile sys path).
Qed.

(** The logger [main] gets for the log file [path]. *)
Lemma main_logger_shape (cf : Settings) (path : string) :
  let lg := fst (NewJSONLogger
                   [ WithDisableConsole; WithField "domain" (domain cf);
                     WithTimeLayout (CSTLayout cf);
                     fun opt => set_file (Lock (os_File path)) opt ]) in
  (forall S, delivered lg S =
             if bool_decide (InfoLevel <= S) then [Lock (os_File path)] else []) /\
  context lg = [StringField "domain" (domain cf)] /\
  Forall (fun enc => EncodeTime_of enc
                     = if String.eqb (CSTLayout cf) "" then time_RFC3339
                       else CSTLayout cf)
         (encoders (core lg)).
Proof.
  intros lg. split; [|split].
  - intros S. unfold lg. rewrite delivered_bands. reflexivity.
  - unfold lg, NewJSONLogger. cbn zeta. simpl fst. rewrite with_fields_context.
    simpl. unfold apply_options. simpl.
    change (<["domain" := domain cf]> (∅ : gmap string string))
      with ({["domain" := domain cf]} : gmap string string).
    by rewrite map_to_list_singleton.
  - eapply Forall_impl; [apply NewJSONLogger_encoders|].
    intros enc ->. unfold effective_timeLayout, apply_options. simpl.
    by destruct (String.eqb (CSTLayout cf) "").
Qed.

(** X22. When [main] gets its two loggers, each writes to its own log
    file and to nothing else, console included; it writes the records
    at Info and above and drops those below. Each carries the one
    static field "domain" with the value name[env], and formats time
    with the layout of the settings. *)
Theorem X22_main_loggers_write_to_their_files (sys : OS) (cf : Settings)
    (accessLogger cronLogger : zap_Logger) :
  loggers sys cf = Ok (accessLogger, cronLogger) ->
  (forall S, delivered accessLogger S =
             if bool_decide (InfoLevel <= S)
             then [Lock (os_File (ProjectAccessLogFile cf))] else []) /\
  (forall S, delivered cronLogger S =
             if bool_decide (InfoLevel <= S)
             then [Lock (os_File (ProjectCronLogFile cf))] else []) /\
  context accessLogger = [StringField "domain" (domain cf)] /\
  context cronLogger = [StringField "domain" (domain cf)] /\
  Forall (fun enc => EncodeTime_of enc
                     = if String.eqb (CSTLayout cf) "" then time_RFC3339
                       else CSTLayout cf)
         (encoders (core accessLogger) ++ encoders (core cronLogger)).
Proof.
  unfold loggers. rewrite !call_logger_args.
  destruct (os_MkdirAll sys (filepath_Dir sys (ProjectAccessLogFile cf)));
    [discriminate|].
  destruct (os_OpenFile sys (ProjectAccessLogFile cf)); [discriminate|].
  destruct (os_MkdirAll sys (filepath_Dir sys (ProjectCronLogFile cf)));
    [discriminate|].
  destruct (os_OpenFile sys (ProjectCronLogFile cf)); [discriminate|].
  intros Hok.
  pose proof (f_equal (fun r => match r with
                                | Ok p => fst p
                                | Panic _ => accessLogger
                                end) Hok) as Ha.
  pose proof (f_equal (fun r => match r with
                                | Ok p => snd p
                                | Panic _ => cronLogger
                                end) Hok) as Hc.
  cbn [fst snd] in Ha, Hc. subst accessLogger cronLogger. clear Hok.
  destruct (main_logger_shape cf (ProjectAccessLogFile cf)) as (Ha1 & Ha2 & Ha3).
  destruct (main_logger_shape cf (ProjectCronLogFile cf)) as (Hc1 & Hc2 & Hc3).
  split; [exact Ha1|]. split; [exact Hc1|]. split; [exact Ha2|].
  split; [exact Hc2|]. apply Forall_app. by split.
Qed.

Lemma X22_main_loggers_write_to_their_files_witness :
  exists accessLogger cronLogger,
    loggers sys_fine settings_fat = Ok (accessLogger, cronLogger) /\
    delivered accessLogger DebugLevel = [] /\
    delivered cronLogger ErrorLevel = [Lock (os_File "./logs/go-gin-api-cron.log")] /\
    context accessLogger = [StringField "domain" "go-gin-api[fat]"].
Proof.
  eexists _, _. split; [reflexivity|].
  destruct (X22_main_loggers_write_to_their_files sys_fine settings_fat _ _ eq_refl)
    as (Ha & Hc & Hctx & _).
  split; [exact (Ha DebugLevel)|]. split; [exact (Hc ErrorLevel)|]. exact Hctx.
Defined.

(** X23. [main] panics before it has a logger exactly when the directory
    of one of the two log files cannot be created or one of the files
    cannot be opened; otherwise it has both loggers, and the error
    check after each call never fires. *)
Theorem X23_main_panics_iff_a_log_file_fails (sys : OS) (cf : Settings) :
  let access := ProjectAccessLogFile cf in
  let cron := ProjectCronLogFile cf in
  (exists p, loggers sys cf = Panic p)
  <-> (os_MkdirAll sys (filepath_Dir sys access) <> None \/
       os_OpenFile sys access <> None \/
       os_MkdirAll sys (filepath_Dir sys cron) <> None \/
       os_OpenFile sys cron <> None).
Proof.
  cbv zeta. unfold loggers. rewrite !call_logger_args.
  destruct (os_MkdirAll sys (filepath_Dir sys (ProjectAccessLogFile cf)));
    [split; [by left | by eexists]|].
  destruct (os_OpenFile sys (ProjectAccessLogFile cf));
    [split; [by right; left | by eexists]|].
  destruct (os_MkdirAll sys (filepath_Dir sys (ProjectCronLogFile cf)));
    [split; [by right; right; left | by eexists]|].
  destruct (os_OpenFile sys (ProjectCronLogFile cf));
    [split; [by right; right; right | by eexists]|].
  split; [intros [p Hp]; discriminate Hp|].
  intros [H|[H|[H|H]]]; by destruct H.
Qed.

End MainAll.
